(** * CSV_Plotter: schema inference, viewport coordination, decimation,
      run-length segmentation and nearest-timestamp lookup

    A shallow embedding of the data side of the CSV plotter:
    - [CsvService]          (src/app/services/csv.service.ts)
    - [SyncService]         (the sync service, second half of unnamed/part_000)
    - [ChartComponent]      (decimateData, state-chart.component.ts l.713)
    - [StateChartComponent] (createStateSegments and the hover lookup,
                             state-chart.component.ts l.238 and l.408)

    Conventions.  Array lengths and indices are [nat]; a [Date] is the
    integer number of milliseconds it holds ([getTime]), a [Z], so that
    every [Date] is a valid one; strings are sequences of 8-bit code units
    (the Latin-1 range of a JavaScript string); [console.log] calls and
    the drawing code are left out. *)

From Stdlib Require Import ZArith List Bool Ascii String Lia Arith.
From Stdlib Require Import Permutation Sorted.
From Equations Require Import Equations.
Import ListNotations.

Local Open Scope string_scope.
Local Open Scope list_scope.

(* ===================================================================== *)
(** * Part I: definitions                                                 *)
(* ===================================================================== *)

(** ** ECMAScript string primitives used by the parser *)

Module JS.

(** WhiteSpace and LineTerminator code units below 256: TAB, LF, VT, FF,
    CR, SP and NBSP. *)
Definition isWhiteSpace (c : ascii) : bool :=
  let n := nat_of_ascii c in
  (n =? 9)%nat || (n =? 10)%nat || (n =? 11)%nat || (n =? 12)%nat ||
  (n =? 13)%nat || (n =? 32)%nat || (n =? 160)%nat.

Fixpoint trimStart (s : string) : string :=
  match s with
  | EmptyString => EmptyString
  | String c s' => if isWhiteSpace c then trimStart s' else s
  end.

Fixpoint trimEnd (s : string) : string :=
  match s with
  | EmptyString => EmptyString
  | String c s' =>
      match trimEnd s' with
      | EmptyString => if isWhiteSpace c then EmptyString else String c EmptyString
      | t => String c t
      end
  end.

(** [String.prototype.trim] *)
Definition trim (s : string) : string := trimEnd (trimStart s).

(** [String.prototype.split] with a one-character separator: never the
    empty array; [split sep ""] is [[""]]. *)
Fixpoint split (sep : ascii) (s : string) : list string :=
  match s with
  | EmptyString => [EmptyString]
  | String c s' =>
      if Ascii.eqb c sep then EmptyString :: split sep s'
      else match split sep s' with
           | [] => [String c EmptyString]
           | h :: t => String c h :: t
           end
  end.

(** [String.prototype.includes] *)
Fixpoint includes (needle s : string) : bool :=
  String.prefix needle s ||
  match s with
  | EmptyString => false
  | String _ s' => includes needle s'
  end.

Definition lowerChar (c : ascii) : ascii :=
  let n := nat_of_ascii c in
  if ((65 <=? n) && (n <=? 90))%nat then ascii_of_nat (n + 32)
  else if ((192 <=? n) && (n <=? 222) && negb (n =? 215))%nat
       then ascii_of_nat (n + 32)
  else c.

Definition upperChar (c : ascii) : ascii :=
  let n := nat_of_ascii c in
  if ((97 <=? n) && (n <=? 122))%nat then ascii_of_nat (n - 32) else c.

Fixpoint mapChars (f : ascii -> ascii) (s : string) : string :=
  match s with
  | EmptyString => EmptyString
  | String c s' => String (f c) (mapChars f s')
  end.

(** [String.prototype.toLowerCase] *)
Definition toLowerCase (s : string) : string := mapChars lowerChar s.

(** *** parseFloat

    The result of [parseFloat] before the final rounding to binary64: the
    sign, the digits read as one integer and the decimal exponent of the
    longest prefix that is a StrDecimalLiteral. *)
Inductive Num : Type :=
| NaN
| Infinity (negative : bool)
| Decimal (negative : bool) (digits : Z) (exp10 : Z).

Definition digitValue (c : ascii) : option Z :=
  let n := nat_of_ascii c in
  if ((48 <=? n) && (n <=? 57))%nat then Some (Z.of_nat (n - 48)) else None.

(** Reads the longest run of decimal digits: the value accumulated onto
    [acc], the number of digits read and the rest of the input. *)
Fixpoint readDigits (s : string) (acc : Z) (count : nat) : Z * nat * string :=
  match s with
  | EmptyString => (acc, count, s)
  | String c s' =>
      match digitValue c with
      | Some d => readDigits s' (10 * acc + d)%Z (S count)
      | None => (acc, count, s)
      end
  end.

(** An optional sign: whether it is a minus, and the rest. *)
Definition readSign (s : string) : bool * string :=
  match s with
  | String "+"%char s' => (false, s')
  | String "-"%char s' => (true, s')
  | _ => (false, s)
  end.

(** ExponentPart, taken only when complete ([e] or [E], an optional sign
    and at least one digit); otherwise the exponent is 0. *)
Definition readExponent (s : string) : Z :=
  match s with
  | String c s' =>
      if Ascii.eqb c "e"%char || Ascii.eqb c "E"%char then
        let '(neg, s'') := readSign s' in
        let '(v, n, _) := readDigits s'' 0%Z 0%nat in
        match n with
        | O => 0%Z
        | S _ => if neg then (- v)%Z else v
        end
      else 0%Z
  | EmptyString => 0%Z
  end.

Definition parseFloat (input : string) : Num :=
  let '(neg, s) := readSign (trimStart input) in
  if String.prefix "Infinity" s then Infinity neg
  else
    let '(ip, nInt, r1) := readDigits s 0%Z 0%nat in
    match r1 with
    | String "."%char r2 =>
        let '(m, nAll, r3) := readDigits r2 ip nInt in
        match nAll with
        | O => NaN
        | S _ => Decimal neg m (readExponent r3 - Z.of_nat (nAll - nInt))%Z
        end
    | _ =>
        match nInt with
        | O => NaN
        | S _ => Decimal neg ip (readExponent r1)
        end
    end.

Definition isNaN (x : Num) : bool :=
  match x with NaN => true | _ => false end.

(** Rounding to nearest (ties to even) sends a magnitude to an infinity
    exactly when it is at least 2^1024 - 2^970. *)
Definition overflowThreshold : Z := (2 ^ 1024 - 2 ^ 970)%Z.

Definition isFinite (x : Num) : bool :=
  match x with
  | NaN => false
  | Infinity _ => false
  | Decimal _ m e =>
      if (0 <=? e)%Z then (m * 10 ^ e <? overflowThreshold)%Z
      else (m <? overflowThreshold * 10 ^ (- e))%Z
  end.

End JS.

(** ** models/data.model.ts *)

Module DataModel.

Inductive DataType : Type := DTnumber | DTstring | DTdate.

Record PlotField : Type := mkPlotField {
  key : string;
  label : string;
  selected : bool;
  color : string;
  dataType : DataType
}.

Record TimeRange : Type := mkTimeRange {
  range_start : Z;
  range_end : Z
}.

Record CsvMetadata : Type := mkCsvMetadata {
  headers : list string;
  numericFields : list string;
  categoricalFields : list string;
  dateTimeField : option string;
  latitudeField : option string;
  longitudeField : option string
}.

Definition DEFAULT_COLORS : list string :=
  [ "#1f77b4"; "#ff7f0e"; "#2ca02c"; "#d62728"; "#9467bd";
    "#8c564b"; "#e377c2"; "#7f7f7f"; "#bcbd22"; "#17becf";
    "#aec7e8"; "#ffbb78"; "#98df8a"; "#ff9896"; "#c5b0d5" ].

(** A property value of a parsed row.  [new Date(value)] is kept with its
    argument; a number is kept as [parseFloat] read it. *)
Inductive Cell : Type :=
| CDate (arg : option string)
| CNumber (n : JS.Num)
| CNull
| CText (s : string)
| CUndefined.

(** A row object as a finite map from property name to value: the most
    recent assignment to a name comes first and is the one looked up. *)
Definition Row : Type := list (string * Cell).

Definition setProp (k : string) (v : Cell) (o : Row) : Row := (k, v) :: o.


End DataModel.

(** ** services/csv.service.ts *)

Module CsvService.
Import JS DataModel.

(** The outcome of a call that may throw. *)
Inductive Completion (A : Type) : Type :=
| Return (a : A)
| Throw (error : string).
Arguments Return {A} a.
Arguments Throw {A} error.

(** The role [analyzeHeaders] gives a column. *)
Inductive Role : Type := Datetime | Latitude | Longitude | Numeric | Categorical.

(** Pairs every element with its index, as [forEach] and [map] pass it. *)
Definition indexed {A : Type} (l : list A) : list (nat * A) :=
  combine (seq 0 (List.length l)) l.

(** Truthiness of a [string | null] and of a [string | undefined]. *)
Definition truthy (v : option string) : bool :=
  match v with
  | None => false
  | Some s => negb (String.eqb s "")
  end.

(** [x === f] for a string [x] and a [string | null] [f]. *)
Definition sameField (x : string) (f : option string) : bool :=
  match f with
  | None => false
  | Some y => String.eqb x y
  end.

(** The tokens the parser skips: [''], ['null'], ['NULL'], ['undefined']. *)
Definition isNullToken (value : string) : bool :=
  String.eqb value "" || String.eqb value "null" ||
  String.eqb value "NULL" || String.eqb value "undefined".

(** The loop variables of [isNumericField]. *)
Record Scan : Type := mkScan {
  hasStringData : bool;
  hasNumericData : bool;
  totalValues : nat
}.

(** One iteration of [for (const line of dataLines)]. *)
Definition scanLine (columnIndex : nat) (st : Scan) (line : string) : Scan :=
  let values := split "," line in
  if truthy (nth_error values columnIndex) then
    let value := trim (match nth_error values columnIndex with
                       | Some v => v
                       | None => ""
                       end) in
    let st := mkScan (hasStringData st) (hasNumericData st) (S (totalValues st)) in
    if negb (isNullToken value) then
      if negb (isNaN (parseFloat value)) && isFinite (parseFloat value)
      then mkScan (hasStringData st) true (totalValues st)
      else mkScan true (hasNumericData st) (totalValues st)
    else st
  else st.

Definition isNumericField (columnIndex : nat) (dataLines : list string) : bool :=
  let st := fold_left (scanLine columnIndex) dataLines (mkScan false false 0) in
  hasNumericData st && negb (hasStringData st) && (0 <? totalValues st)%nat.

(** The variables [analyzeHeaders] declares before its [forEach]. *)
Record Analysis : Type := mkAnalysis {
  a_numericFields : list string;
  a_categoricalFields : list string;
  a_dateTimeField : option string;
  a_latitudeField : option string;
  a_longitudeField : option string
}.

(** The branch the body of the [forEach] takes for one header. *)
Definition headerRole (dataLines : list string) (st : Analysis)
    (index : nat) (header : string) : Role :=
  let lowerHeader := toLowerCase header in
  if negb (truthy (a_dateTimeField st)) &&
     (includes "date" lowerHeader || includes "time" lowerHeader)
  then Datetime
  else if negb (truthy (a_latitudeField st)) &&
          (includes "lat" lowerHeader || String.eqb lowerHeader "y")
  then Latitude
  else if negb (truthy (a_longitudeField st)) &&
          (includes "lon" lowerHeader || includes "lng" lowerHeader ||
           String.eqb lowerHeader "x")
  then Longitude
  else if isNumericField index dataLines then Numeric
  else Categorical.

(** The assignment or [push] of that branch. *)
Definition analyzeHeader (dataLines : list string) (st : Analysis)
    (ih : nat * string) : Analysis :=
  let '(index, header) := ih in
  match headerRole dataLines st index header with
  | Datetime =>
      mkAnalysis (a_numericFields st) (a_categoricalFields st)
                 (Some header) (a_latitudeField st) (a_longitudeField st)
  | Latitude =>
      mkAnalysis (a_numericFields st) (a_categoricalFields st)
                 (a_dateTimeField st) (Some header) (a_longitudeField st)
  | Longitude =>
      mkAnalysis (a_numericFields st) (a_categoricalFields st)
                 (a_dateTimeField st) (a_latitudeField st) (Some header)
  | Numeric =>
      mkAnalysis (a_numericFields st ++ [header]) (a_categoricalFields st)
                 (a_dateTimeField st) (a_latitudeField st) (a_longitudeField st)
  | Categorical =>
      mkAnalysis (a_numericFields st) (a_categoricalFields st ++ [header])
                 (a_dateTimeField st) (a_latitudeField st) (a_longitudeField st)
  end.

Definition initialAnalysis : Analysis := mkAnalysis [] [] None None None.

Definition analyzeHeaders (hs : list string) (dataLines : list string)
    : CsvMetadata :=
  let st := fold_left (analyzeHeader dataLines) (indexed hs) initialAnalysis in
  mkCsvMetadata hs (a_numericFields st) (a_categoricalFields st)
                (a_dateTimeField st) (a_latitudeField st) (a_longitudeField st).

(** The role each column received, column by column: the branches taken
    by the successive iterations of the [forEach] of [analyzeHeaders]. *)
Fixpoint rolesFrom (dataLines : list string) (st : Analysis)
    (ihs : list (nat * string)) : list Role :=
  match ihs with
  | [] => []
  | (index, header) :: rest =>
      headerRole dataLines st index header ::
      rolesFrom dataLines (analyzeHeader dataLines st (index, header)) rest
  end.

Definition columnRoles (hs : list string) (dataLines : list string) : list Role :=
  rolesFrom dataLines initialAnalysis (indexed hs).

(** [parseFloat(value)] for a [string | undefined]: the argument is first
    converted to a string. *)
Definition parseFloatAny (value : option string) : Num :=
  parseFloat (match value with Some v => v | None => "undefined" end).

(** [formatFieldLabel]: the three [replace] calls, in order. *)
Definition isLowerAZ (c : ascii) : bool :=
  let n := nat_of_ascii c in ((97 <=? n) && (n <=? 122))%nat.

Definition isUpperAZ (c : ascii) : bool :=
  let n := nat_of_ascii c in ((65 <=? n) && (n <=? 90))%nat.

(** The class [\w]. *)
Definition isWordChar (c : ascii) : bool :=
  let n := nat_of_ascii c in
  isLowerAZ c || isUpperAZ c || ((48 <=? n) && (n <=? 57))%nat || (n =? 95)%nat.

(** [.replace(/_/g, ' ')] *)
Definition underscoresToSpaces (s : string) : string :=
  mapChars (fun c => if Ascii.eqb c "_"%char then " "%char else c) s.

(** [.replace(/([a-z])([A-Z])/g, '$1 $2')]: the search resumes after each
    two-character match. *)
Fixpoint splitCamelCase (s : string) : string :=
  match s with
  | EmptyString => EmptyString
  | String a s' =>
      match s' with
      | String b r =>
          if isLowerAZ a && isUpperAZ b
          then String a (String " "%char (String b (splitCamelCase r)))
          else String a (splitCamelCase s')
      | EmptyString => String a EmptyString
      end
  end.

(** [.replace(/\b\w/g, l => l.toUpperCase())]: [afterWord] tells whether
    the previous character is a word character. *)
Fixpoint capitalizeWords (afterWord : bool) (s : string) : string :=
  match s with
  | EmptyString => EmptyString
  | String c s' =>
      String (if isWordChar c && negb afterWord then upperChar c else c)
             (capitalizeWords (isWordChar c) s')
  end.

Definition formatFieldLabel (fieldName : string) : string :=
  capitalizeWords false (splitCamelCase (underscoresToSpaces fieldName)).

(** The body of [headers.forEach((header, index) => ...)] in [parseCsv]. *)
Definition assignCell (md : CsvMetadata) (values : list string)
    (dataPoint : Row) (ih : nat * string) : Row :=
  let '(index, header) := ih in
  let value := nth_error values index in
  if sameField header (dateTimeField md) then
    setProp "datetime" (CDate value) dataPoint
  else if sameField header (latitudeField md) then
    setProp "latitude" (CNumber (parseFloatAny value)) dataPoint
  else if sameField header (longitudeField md) then
    setProp "longitude" (CNumber (parseFloatAny value)) dataPoint
  else if existsb (String.eqb header) (numericFields md) then
    if match value with Some v => isNullToken v | None => false end then
      setProp header CNull dataPoint
    else
      let numValue := parseFloatAny value in
      setProp header (if isNaN numValue then CNull else CNumber numValue) dataPoint
  else
    setProp header (match value with Some v => CText v | None => CUndefined end)
            dataPoint.

Definition parseLine (hs : list string) (md : CsvMetadata) (line : string) : Row :=
  let values := map trim (split "," line) in
  fold_left (assignCell md values) (indexed hs) [].

(** [DEFAULT_COLORS[i % DEFAULT_COLORS.length]]; the index is in range. *)
Definition paletteColor (i : nat) : string :=
  nth (i mod List.length DEFAULT_COLORS) DEFAULT_COLORS "".

Record Parsed : Type := mkParsed {
  data : list Row;
  metadata : CsvMetadata;
  fields : list PlotField
}.

Definition numericPlotFields (md : CsvMetadata) : list PlotField :=
  map (fun '(index, field) =>
         mkPlotField field (formatFieldLabel field) (index <? 2)%nat
                     (paletteColor index) DTnumber)
      (indexed (filter (fun field => negb (sameField field (latitudeField md)) &&
                                     negb (sameField field (longitudeField md)))
                       (numericFields md))).

Definition categoricalPlotFields (md : CsvMetadata) : list PlotField :=
  map (fun '(index, field) =>
         mkPlotField field (formatFieldLabel field) (index <? 1)%nat
                     (paletteColor (List.length (numericPlotFields md) + index))
                     DTstring)
      (indexed (categoricalFields md)).

(** [parseCsv].  Reading [lines[0]] of an empty array would throw a
    TypeError at [.split]. *)
Definition parseCsv (csvText : string) : Completion Parsed :=
  let lines := split "010"%char (trim csvText) in
  match nth_error lines 0 with
  | None => Throw "TypeError: Cannot read properties of undefined (reading 'split')"
  | Some line0 =>
      let hs := map trim (split "," line0) in
      let md := analyzeHeaders hs (skipn 1 lines) in
      let rows := map (parseLine hs md) (skipn 1 lines) in
      Return (mkParsed rows md (numericPlotFields md ++ categoricalPlotFields md))
  end.

(** The three BehaviorSubjects of the service, by their current value. *)
Record Service : Type := mkService {
  dataSubject : list Row;
  metadataSubject : option CsvMetadata;
  availableFieldsSubject : list PlotField
}.

Definition newService : Service := mkService [] None [].

(** How the promise of [parseFile] settles. *)
Inductive Settled : Type :=
| Resolved (value : list Row)
| Rejected (error : string).

(** The [reader.onload] handler of [parseFile], on the text read. *)
Definition parseFile (csvText : string) (s : Service) : Service * Settled :=
  match parseCsv csvText with
  | Return result =>
      (mkService (data result) (Some (metadata result)) (fields result),
       Resolved (data result))
  | Throw error => (s, Rejected error)
  end.

(** [getCurrentData] *)
Definition getCurrentData (s : Service) : list Row := dataSubject s.

End CsvService.

(** ** The sync service (zoom and hover coordination) *)

Module SyncService.
Import DataModel.

Record HoverEvent : Type := mkHoverEvent {
  dataPoint : Row;
  x : Z;
  y : Z
}.

(** The private fields of the service.  A [BehaviorSubject] is its current
    value; what [next] delivers to the subscribers of each subject is
    appended to a log. *)
Record State : Type := mkState {
  zoomSubject : option TimeRange;
  dataBounds : option TimeRange;
  zoomEmitted : list (option TimeRange);
  hoverEmitted : list (option HoverEvent)
}.

(** The state after the field initialisers: [zoomSubject] holds [null],
    [dataBounds] is [null]. *)
Definition init : State := mkState None None [] [].

Definition emitHover (event : option HoverEvent) (s : State) : State :=
  mkState (zoomSubject s) (dataBounds s) (zoomEmitted s)
          (hoverEmitted s ++ [event]).

Definition setDataBounds (bounds : TimeRange) (s : State) : State :=
  mkState (zoomSubject s) (Some bounds) (zoomEmitted s) (hoverEmitted s).

(** [this.zoomSubject.next(v)] *)
Definition zoomNext (v : option TimeRange) (s : State) : State :=
  mkState v (dataBounds s) (zoomEmitted s ++ [v]) (hoverEmitted s).

Definition emitZoom (timeRange : TimeRange) (s : State) : State :=
  let timeRange :=
    match dataBounds s with
    | Some bounds =>
        let clampedStart := Z.max (range_start timeRange) (range_start bounds) in
        let clampedEnd := Z.min (range_end timeRange) (range_end bounds) in
        mkTimeRange clampedStart clampedEnd
    | None => timeRange
    end in
  zoomNext (Some timeRange) s.

Definition getCurrentZoom (s : State) : option TimeRange := zoomSubject s.

Definition clearZoom (s : State) : State := zoomNext None s.

(** A call of one of the public methods that change the service. *)
Inductive Call : Type :=
| EmitHover (event : option HoverEvent)
| SetDataBounds (bounds : TimeRange)
| EmitZoom (timeRange : TimeRange)
| ClearZoom.

Definition call (s : State) (c : Call) : State :=
  match c with
  | EmitHover event => emitHover event s
  | SetDataBounds bounds => setDataBounds bounds s
  | EmitZoom timeRange => emitZoom timeRange s
  | ClearZoom => clearZoom s
  end.

(** The service after a sequence of calls, from a given state. *)
Definition run (s : State) (calls : list Call) : State := fold_left call calls s.

Definition isSetDataBounds (c : Call) : bool :=
  match c with SetDataBounds _ => true | _ => false end.

End SyncService.

(** ** ChartComponent: decimation of the overview trace *)

Module ChartComponent.

Section Decimation.

(** The elements of [data] are object references; [===] on them is
    identity, which is equality of references. *)
Context {DataPoint : Type}.
Variable sameObject : forall a b : DataPoint, {a = b} + {a <> b}.

(** [a === b] for two array reads, either of which may be [undefined]. *)
Definition strictEquals (a b : option DataPoint) : bool :=
  match a, b with
  | Some p, Some q => if sameObject p q then true else false
  | None, None => true
  | _, _ => false
  end.

(** [arr.push(v)] for an array read [v]; every read pushed below is in
    range, so it is an element. *)
Definition push (arr : list DataPoint) (v : option DataPoint) : list DataPoint :=
  match v with
  | Some d => arr ++ [d]
  | None => arr
  end.

(** [arr[arr.length - 1]] *)
Definition lastOf (arr : list DataPoint) : option DataPoint :=
  match arr with
  | [] => None
  | _ => nth_error arr (List.length arr - 1)
  end.

(** [Math.ceil(a / b)] on array lengths. *)
Definition ceilDiv (a b : nat) : nat := (a + b - 1) / b.

(** [for (let i = ...; i < data.length; i += step) decimated.push(data[i])]
    from the current [i] and [decimated]; [None] when the fuel runs out
    before the loop ends. *)
Fixpoint keepLoop (fuel : nat) (data : list DataPoint) (step i : nat)
    (decimated : list DataPoint) : option (list DataPoint) :=
  if (i <? List.length data)%nat then
    match fuel with
    | O => None
    | S fuel' => keepLoop fuel' data step (i + step) (push decimated (nth_error data i))
    end
  else Some decimated.

Definition decimateData (data : list DataPoint) : option (list DataPoint) :=
  if (List.length data <=? 2000)%nat then Some data
  else
    let targetPoints := 2000%nat in
    let step := ceilDiv (List.length data) targetPoints in
    match keepLoop (List.length data) data step 0 [] with
    | None => None
    | Some decimated =>
        if negb (strictEquals (lastOf decimated) (lastOf data))
        then Some (push decimated (lastOf data))
        else Some decimated
    end.

End Decimation.

Section ZoomAndGaps.

Import DataModel.

(** A point is read through [d.datetime] and through the plotted field
    [point[this.field.key]]; [isNull] is the test
    [value === null || value === undefined || isNaN(value)] on it. *)
Context {DataPoint Any : Type}.
Variable sameObject : forall a b : DataPoint, {a = b} + {a <> b}.
Variable datetime : DataPoint -> Z.
Variable fieldOf : DataPoint -> Any.
Variable isNull : Any -> bool.

(** The body of the loop of [findNullGaps], on the pair of [gaps] and
    [gapStart]. *)
Definition gapStep (st : list TimeRange * option Z) (point : DataPoint)
    : list TimeRange * option Z :=
  let '(gaps, gapStart) := st in
  match gapStart with
  | None =>
      if isNull (fieldOf point) then (gaps, Some (datetime point)) else st
  | Some start =>
      if negb (isNull (fieldOf point))
      then (gaps ++ [mkTimeRange start (datetime point)], None)
      else st
  end.

Definition findNullGaps (data : list DataPoint) : list TimeRange :=
  let '(gaps, gapStart) := fold_left gapStep data ([], None) in
  match gapStart with
  | Some start =>
      if (0 <? List.length data)%nat then
        match nth_error data (List.length data - 1) with
        | Some lastPoint => gaps ++ [mkTimeRange start (datetime lastPoint)]
        | None => gaps
        end
      else gaps
  | None => gaps
  end.

(** [visibleData] of [applyZoom]: the points inside the time range. *)
Definition visibleData (data : list DataPoint) (timeRange : TimeRange)
    : list DataPoint :=
  filter (fun d => (range_start timeRange <=? datetime d)%Z &&
                   (datetime d <=? range_end timeRange)%Z) data.

(** [finalData] of [applyZoom]: the visible points, thinned out with the
    stride loop when there are more than 1000 of them. *)
Definition finalData (data : list DataPoint) (timeRange : TimeRange)
    : option (list DataPoint) :=
  let visible := visibleData data timeRange in
  if (1000 <? List.length visible)%nat then
    let step := ceilDiv (List.length visible) 1000 in
    match keepLoop (List.length visible) visible step 0 [] with
    | None => None
    | Some final =>
        if negb (strictEquals sameObject (lastOf final) (lastOf visible))
        then Some (push final (lastOf visible))
        else Some final
    end
  else Some visible.

End ZoomAndGaps.

End ChartComponent.

(** ** StateChartComponent: run segments and the hover lookup *)

Module StateChartComponent.

Definition STATE_COLORS : list string :=
  [ "#4CAF50"; "#F44336"; "#FF9800"; "#2196F3"; "#9C27B0";
    "#795548"; "#607D8B"; "#E91E63"; "#00BCD4"; "#8BC34A" ].

Record Segment : Type := mkSegment {
  state : string;
  seg_start : Z;
  seg_end : Z;
  seg_color : option string
}.

Record Gap : Type := mkGap {
  gap_start : Z;
  gap_end : Z
}.

Section Component.

(** A [DataPoint] is read through [d.datetime] (as its time value) and
    through the plotted field [d[this.field.key]], a value of type [any]
    that the component only tests against [null] and [undefined] and
    converts with [String]. *)
Context {DataPoint Any : Type}.
Variable datetime : DataPoint -> Z.
Variable fieldOf : DataPoint -> Any.
Variable isNullish : Any -> bool.
Variable toString : Any -> string.

(** [uniqueStates] of [updateChart]: the distinct [String(d[key])], in
    order of first occurrence. *)
Fixpoint distinct (seen : list string) (l : list string) : list string :=
  match l with
  | [] => []
  | s :: l' =>
      if existsb (String.eqb s) seen then distinct seen l'
      else s :: distinct (s :: seen) l'
  end.

Definition uniqueStates (data : list DataPoint) : list string :=
  distinct [] (map (fun d => toString (fieldOf d)) data).

(** [stateColorMap[s]] as [updateChart] fills it: the colour of the
    position of [s] in [uniqueStates], cyclically. *)
Fixpoint indexOf (s : string) (l : list string) (i : nat) : option nat :=
  match l with
  | [] => None
  | s' :: l' => if String.eqb s s' then Some i else indexOf s l' (S i)
  end.

Definition stateColorMap (data : list DataPoint) (s : string) : option string :=
  match indexOf s (uniqueStates data) 0 with
  | Some index => nth_error STATE_COLORS (index mod List.length STATE_COLORS)
  | None => None
  end.

(** The variables of [createStateSegments]. *)
Record Runs : Type := mkRuns {
  segments : list Segment;
  nullGaps : list Gap;
  currentState : Any;
  segmentStart : Z;
  isCurrentNull : bool
}.

(** "End current segment": the run from [segmentStart] is closed at
    [endTime] and goes to [nullGaps] or to [segments]. *)
Definition endCurrent (colors : string -> option string) (r : Runs)
    (endTime : Z) : list Segment * list Gap :=
  if isCurrentNull r then
    (segments r, nullGaps r ++ [mkGap (segmentStart r) endTime])
  else
    (segments r ++ [mkSegment (toString (currentState r)) (segmentStart r) endTime
                              (colors (toString (currentState r)))],
     nullGaps r).

(** The body of [for (let i = 1; i < this.data.length; i++)] at
    [this.data[i] = d]. *)
Definition visit (colors : string -> option string) (r : Runs) (d : DataPoint) : Runs :=
  let newState := fieldOf d in
  let isNewNull := isNullish newState in
  if negb (Bool.eqb isNewNull (isCurrentNull r)) ||
     (negb isNewNull &&
      negb (String.eqb (toString newState) (toString (currentState r))))
  then
    let '(segs, gaps) := endCurrent colors r (datetime d) in
    mkRuns segs gaps newState (datetime d) isNewNull
  else r.

(** [createStateSegments], up to the two arrays it draws.  Reading
    [this.data[0]] of an empty array throws: [None]. *)
Definition createStateSegments (data : list DataPoint)
    : option (list Segment * list Gap) :=
  match data with
  | [] => None
  | d0 :: rest =>
      let r0 := mkRuns [] [] (fieldOf d0) (datetime d0) (isNullish (fieldOf d0)) in
      let r := fold_left (visit (stateColorMap data)) rest r0 in
      match nth_error data (List.length data - 1) with
      | Some dl => Some (endCurrent (stateColorMap data) r (datetime dl))
      | None => None
      end
  end.

(** [d3.bisector(d => d.datetime).left(a, x, lo, hi)] of d3-array: the
    loop [while (lo < hi) { mid = (lo + hi) >>> 1;
    if (a[mid].datetime < x) lo = mid + 1; else hi = mid; } return lo].
    Every [mid] is below [hi], so [a[mid]] is read in range whenever [hi]
    is at most the length. *)
Equations? bisectLeft (a : list DataPoint) (x : Z) (lo hi : nat) : nat
  by wf (hi - lo) lt :=
  bisectLeft a x lo hi with lt_dec lo hi => {
    | right _ => lo
    | left _ with nth_error a ((lo + hi) / 2) => {
        | Some d with Z.ltb (datetime d) x => {
            | true => bisectLeft a x ((lo + hi) / 2 + 1) hi
            | false => bisectLeft a x lo ((lo + hi) / 2) }
        | None => lo } }.
Proof.
  all: change (fst (Nat.divmod (lo + hi) 1 0 1)) with ((lo + hi) / 2);
    pose proof (Nat.div_mod_eq (lo + hi) 2);
    pose proof (Nat.mod_upper_bound (lo + hi) 2); lia.
Qed.

(** The lookup of [onMouseMoveThrottled]: the data point closest to
    [date]; [undefined] on an empty array. *)
Definition closestPoint (data : list DataPoint) (date : Z) : option DataPoint :=
  let index := bisectLeft data date 0 (List.length data) in
  if (index =? 0)%nat then nth_error data 0
  else if (index =? List.length data)%nat then nth_error data (List.length data - 1)
  else
    match nth_error data (index - 1), nth_error data index with
    | Some left_, Some right_ =>
        Some (if (date - datetime left_ >? datetime right_ - date)%Z
              then right_ else left_)
    | _, _ => None
    end.

End Component.

End StateChartComponent.

(** ** AppComponent: data bounds and the list of selected fields *)

Module AppComponent.
Import DataModel.


Section Data.

Context {DataPoint : Type}.
Variable datetime : DataPoint -> Z.


End Data.

(** The subscriber of [availableFields$]: the new [selectedFields]. *)
Definition onAvailableFields (fields : list PlotField) : list PlotField :=
  filter selected fields.

Definition onFieldSelected (field : PlotField) (selectedFields : list PlotField)
    : list PlotField :=
  selectedFields ++
  [mkPlotField (key field) (label field) true
               (CsvService.paletteColor (List.length selectedFields))
               (dataType field)].

Definition onFieldRemoved (field : PlotField) (selectedFields : list PlotField)
    : list PlotField :=
  filter (fun f => negb (String.eqb (key f) (key field))) selectedFields.

Definition onClearZoom (sync : SyncService.State) : SyncService.State :=
  SyncService.clearZoom sync.

End AppComponent.

(** ** FieldSelectorComponent *)

Module FieldSelectorComponent.
Import DataModel.

(** The getter [unselectedFields]. *)
Definition unselectedFields (availableFields selectedFields : list PlotField)
    : list PlotField :=
  let selectedKeys := map key selectedFields in
  filter (fun field => negb (existsb (String.eqb (key field)) selectedKeys))
         availableFields.

(** [onFieldSelectionChange]: the field emitted on [fieldSelected], if
    any, and the new [selectedFieldKey]. *)
Definition onFieldSelectionChange (availableFields : list PlotField)
    (selectedFieldKey : string) : option PlotField * string :=
  if negb (String.eqb selectedFieldKey "") then
    match find (fun f => String.eqb (key f) selectedFieldKey) availableFields with
    | Some field => (Some field, "")
    | None => (None, selectedFieldKey)
    end
  else (None, selectedFieldKey).



End FieldSelectorComponent.

(** ** Vocabulary of the specification *)

Module Spec.
Import JS DataModel.

(** *** Schema inference *)

(** The raw field of a row at a column, absent when the row has fewer
    fields. *)
Definition fieldAt (columnIndex : nat) (line : string) : option string :=
  nth_error (split "," line) columnIndex.

(** A value is missing when it is absent or when, after trimming, it is
    the empty string or one of [null], [NULL], [undefined]. *)
Definition isMissing (field : option string) : bool :=
  match field with
  | None => true
  | Some v =>
      let t := trim v in
      String.eqb t "" || String.eqb t "null" || String.eqb t "NULL" ||
      String.eqb t "undefined"
  end.

(** The value one row contributes to a column, trimmed, unless it is
    missing. *)
Definition lineValues (columnIndex : nat) (line : string) : list string :=
  if isMissing (fieldAt columnIndex line) then []
  else match fieldAt columnIndex line with
       | Some v => [trim v]
       | None => []
       end.

(** The non-missing values of a column, trimmed, in row order. *)
Definition nonMissingValues (columnIndex : nat) (dataLines : list string)
    : list string :=
  flat_map (lineValues columnIndex) dataLines.

(** A value parses as a finite number. *)
Definition parsesAsFiniteNumber (value : string) : bool :=
  match parseFloat value with
  | NaN => false
  | x => isFinite x
  end.

(** A header paired with its role has the role [r]. *)
Definition isRole (r : CsvService.Role) (hr : string * CsvService.Role) : bool :=
  match snd hr, r with
  | CsvService.Datetime, CsvService.Datetime
  | CsvService.Latitude, CsvService.Latitude
  | CsvService.Longitude, CsvService.Longitude
  | CsvService.Numeric, CsvService.Numeric
  | CsvService.Categorical, CsvService.Categorical => true
  | _, _ => false
  end.

(** The headers that received a given role, in header order. *)
Definition columnsWithRole (r : CsvService.Role) (hs : list string)
    (roles : list CsvService.Role) : list string :=
  map fst (filter (isRole r) (combine hs roles)).

(** The headers with the numeric or the categorical role, in header
    order. *)
Definition plottableColumns (hs : list string) (roles : list CsvService.Role)
    : list string :=
  map fst (filter (fun hr => match snd hr with
                             | CsvService.Numeric | CsvService.Categorical => true
                             | _ => false
                             end) (combine hs roles)).

(** A header names a date: its lower-case form contains [date] or
    [time]. *)
Definition looksLikeDate (header : string) : bool :=
  includes "date" (toLowerCase header) || includes "time" (toLowerCase header).

(** The list of a field that may be absent. *)
Definition fieldList (f : option string) : list string :=
  match f with
  | Some h => [h]
  | None => []
  end.

(** A label holds no underscore. *)
Fixpoint hasNoUnderscore (s : string) : bool :=
  match s with
  | EmptyString => true
  | String c s' => negb (Ascii.eqb c "_"%char) && hasNoUnderscore s'
  end.

(** A label holds no lower-case letter directly followed by an upper-case
    one. *)
Definition startsUpper (s : string) : bool :=
  match s with
  | EmptyString => false
  | String c _ => CsvService.isUpperAZ c
  end.

Fixpoint hasNoCamelPair (s : string) : bool :=
  match s with
  | EmptyString => true
  | String c s' =>
      negb (CsvService.isLowerAZ c && startsUpper s') && hasNoCamelPair s'
  end.

(** The data lines [parseCsv] reads from a text. *)
Definition dataLinesOf (csvText : string) : list string :=
  skipn 1 (split "010"%char (trim csvText)).

(** What parsing makes of a text that is empty once trimmed: no record,
    the one header [""] as a categorical column, one plot field for it. *)
Definition emptyParse : CsvService.Parsed :=
  CsvService.mkParsed
    []
    (mkCsvMetadata [""] [] [""] None None None)
    [mkPlotField "" "" true "#1f77b4" DTstring].

(** *** Viewport *)

(** A range lies within bounds: it starts no earlier and ends no later. *)
Definition within (w bounds : TimeRange) : Prop :=
  (range_start bounds <= range_start w)%Z /\ (range_end w <= range_end bounds)%Z.

(** An instant belongs to a range. *)
Definition inRange (t : Z) (w : TimeRange) : Prop :=
  (range_start w <= t <= range_end w)%Z.

(** The hover events of a sequence of calls, in order. *)
Definition hoverEventsOf (calls : list SyncService.Call)
    : list (option SyncService.HoverEvent) :=
  flat_map (fun c => match c with
                     | SyncService.EmitHover event => [event]
                     | _ => []
                     end) calls.

(** A call that writes the zoom window. *)
Definition isZoomCall (c : SyncService.Call) : bool :=
  match c with
  | SyncService.EmitZoom _ | SyncService.ClearZoom => true
  | _ => false
  end.

(** *** Decimation *)

(** The indices [0, step, 2 step, ...] below [len]. *)
Definition keptIndices (len step : nat) : list nat :=
  map (fun k => k * step) (seq 0 (ChartComponent.ceilDiv len step)).

(** The elements of [data] at the given indices. *)
Definition pick {A : Type} (data : list A) (indices : list nat) : list A :=
  flat_map (fun i => match nth_error data i with
                     | Some d => [d]
                     | None => []
                     end) indices.

(** [Subseq l1 l2]: [l1] is [l2] with some elements left out, the others
    in their order. *)
Inductive Subseq {A : Type} : list A -> list A -> Prop :=
| Subseq_nil : Subseq [] []
| Subseq_keep : forall x l1 l2, Subseq l1 l2 -> Subseq (x :: l1) (x :: l2)
| Subseq_skip : forall x l1 l2, Subseq l1 l2 -> Subseq l1 (x :: l2).

(** *** Segments and gaps *)

(** The interval of a segment or of a gap. *)
Definition Interval : Type := (Z * Z)%type.

Definition segmentInterval (s : StateChartComponent.Segment) : Interval :=
  (StateChartComponent.seg_start s, StateChartComponent.seg_end s).

Definition gapInterval (g : StateChartComponent.Gap) : Interval :=
  (StateChartComponent.gap_start g, StateChartComponent.gap_end g).

(** The segments and the gaps of a field, as one collection. *)
Definition intervalsOf (sg : list StateChartComponent.Segment *
                             list StateChartComponent.Gap) : list Interval :=
  map segmentInterval (fst sg) ++ map gapInterval (snd sg).

(** [Chained R a b l]: the intervals of [l], in order, lead from [a] to
    [b], each one ending where the next one starts, with [R start end] for
    each of them. *)
Inductive Chained (R : Z -> Z -> Prop) : Z -> Z -> list Interval -> Prop :=
| Chained_nil : forall a, Chained R a a []
| Chained_cons : forall a c b l,
    R a c -> Chained R c b l -> Chained R a b ((a, c) :: l).

(** Ordered by start. *)
Definition byStart (l : list Interval) : Prop :=
  Sorted (fun i j => (fst i <= fst j)%Z) l.

(** Consecutive intervals: the end of each is the start of the next. *)
Fixpoint contiguous (l : list Interval) : Prop :=
  match l with
  | i :: ((j :: _) as l') => snd i = fst j /\ contiguous l'
  | _ => True
  end.

(** The start of the first interval and the end of the last one. *)
Definition firstStart (l : list Interval) : option Z :=
  option_map fst (hd_error l).

Definition lastEnd (l : list Interval) : option Z :=
  match l with
  | [] => None
  | i :: l' => Some (snd (last l' i))
  end.

(** No overlap: an interval ends no later than a later one starts. *)
Definition noOverlap (l : list Interval) : Prop :=
  ForallOrdPairs (fun i j => (snd i <= fst j)%Z) l.

(** Every instant from [a] to [b] lies in one of the intervals. *)
Definition covers (l : list Interval) (a b : Z) : Prop :=
  forall t, (a <= t <= b)%Z -> Exists (fun i => (fst i <= t <= snd i)%Z) l.

Section Runs.

Context {DataPoint Any : Type}.
Variable datetime : DataPoint -> Z.
Variable fieldOf : DataPoint -> Any.
Variable isNullish : Any -> bool.
Variable toString : Any -> string.

(** A run ends between two values when the missing status flips, or when
    both are present and differ. *)
Definition breaksRun (current next : Any) : bool :=
  xorb (isNullish current) (isNullish next) ||
  (negb (isNullish current) && negb (isNullish next) &&
   negb (String.eqb (toString current) (toString next))).

(** The runs of a field in time order, as intervals: the run of [current]
    that started at [start] goes on through [rest] until a value breaks
    it, and the final run ends at [lastTime]. *)
Fixpoint runsFrom (current : Any) (start : Z) (rest : list DataPoint)
    (lastTime : Z) : list Interval :=
  match rest with
  | [] => [(start, lastTime)]
  | d :: rest' =>
      if breaksRun current (fieldOf d)
      then (start, datetime d) :: runsFrom (fieldOf d) (datetime d) rest' lastTime
      else runsFrom current start rest' lastTime
  end.

Definition runIntervals (data : list DataPoint) : list Interval :=
  match data with
  | [] => []
  | d0 :: rest =>
      runsFrom (fieldOf d0) (datetime d0) rest (datetime (last rest d0))
  end.

(** A record lies in a run of its own value: a gap around its timestamp
    when its value is missing, otherwise a segment around its timestamp
    that carries its value. *)
Definition inItsRun (sg : list StateChartComponent.Segment *
                          list StateChartComponent.Gap) (d : DataPoint) : Prop :=
  if isNullish (fieldOf d)
  then exists g, In g (snd sg) /\
                 (StateChartComponent.gap_start g <= datetime d
                  <= StateChartComponent.gap_end g)%Z
  else exists s, In s (fst sg) /\
                 StateChartComponent.state s = toString (fieldOf d) /\
                 (StateChartComponent.seg_start s <= datetime d
                  <= StateChartComponent.seg_end s)%Z.

(** During the walk: a record lies in a run already closed, or belongs to
    the current run. *)
Definition placed (r : @StateChartComponent.Runs Any) (d : DataPoint) : Prop :=
  inItsRun (StateChartComponent.segments r, StateChartComponent.nullGaps r) d \/
  (StateChartComponent.isCurrentNull r = isNullish (fieldOf d) /\
   (isNullish (fieldOf d) = false ->
    toString (StateChartComponent.currentState r) = toString (fieldOf d)) /\
   (StateChartComponent.segmentStart r <= datetime d)%Z).

(** A segment starts at a record with a value, carries that value and
    the colour [colors] gives it; a gap starts at a record without one. *)
Definition segmentFrom (data : list DataPoint) (colors : string -> option string)
    (s : StateChartComponent.Segment) : Prop :=
  exists d, In d data /\ isNullish (fieldOf d) = false /\
            StateChartComponent.state s = toString (fieldOf d) /\
            StateChartComponent.seg_start s = datetime d /\
            StateChartComponent.seg_color s = colors (StateChartComponent.state s).

Definition gapFrom (data : list DataPoint) (g : StateChartComponent.Gap) : Prop :=
  exists d, In d data /\ isNullish (fieldOf d) = true /\
            StateChartComponent.gap_start g = datetime d.

End Runs.

(** A gap of the state chart as a time range. *)
Definition gapRange (g : StateChartComponent.Gap) : TimeRange :=
  mkTimeRange (StateChartComponent.gap_start g) (StateChartComponent.gap_end g).

(** The values of a categorical column as the parser stores them, a
    string or [undefined] for a row that is too short, with [String] and
    the test against [null] and [undefined] on them. *)
Definition textString (v : option string) : string :=
  match v with Some s => s | None => "undefined" end.

Definition textNullish (v : option string) : bool :=
  match v with Some _ => false | None => true end.

(** *** Nearest point *)

(** [index] is the lower-bound insertion index of [x] among [ts]: the
    entries before it are smaller than [x], those from it on are not. *)
Definition lowerBound (ts : list Z) (x : Z) (index : nat) : Prop :=
  index <= List.length ts /\
  (forall i t, i < index -> nth_error ts i = Some t -> (t < x)%Z) /\
  (forall i t, index <= i -> nth_error ts i = Some t -> (x <= t)%Z).

End Spec.

(* ===================================================================== *)
(** * Part II: properties                                                 *)
(* ===================================================================== *)

Local Open Scope nat_scope.

(** ** The sync service *)

Section SyncServiceFacts.
Import DataModel SyncService Spec.

Lemma dataBounds_zoomNext v s : dataBounds (zoomNext v s) = dataBounds s.
Proof. reflexivity. Qed.

Lemma dataBounds_call s c :
  dataBounds (call s c) =
  match c with
  | SetDataBounds b => Some b
  | _ => dataBounds s
  end.
Proof. destruct c; reflexivity. Qed.

(** Without a call of [setDataBounds] the bounds stay as they were. *)
Lemma dataBounds_run_unset calls : forall s,
  forallb (fun c => negb (isSetDataBounds c)) calls = true ->
  dataBounds (run s calls) = dataBounds s.
Proof.
  induction calls as [|c calls IH]; intros s H.
  - reflexivity.
  - simpl in H. apply andb_prop in H as [Hc Hcs].
    change (run s (c :: calls)) with (run (call s c) calls).
    rewrite (IH _ Hcs), dataBounds_call.
    destruct c; try reflexivity. discriminate Hc.
Qed.

(** Bounds that are present were given by a call of [setDataBounds], or
    were there from the start. *)
Lemma dataBounds_run_origin calls : forall s b,
  dataBounds (run s calls) = Some b ->
  In (SetDataBounds b) calls \/ dataBounds s = Some b.
Proof.
  induction calls as [|c calls IH]; intros s b H.
  - right. exact H.
  - change (run s (c :: calls)) with (run (call s c) calls) in H.
    destruct (IH _ _ H) as [Hin | Hb].
    + left. right. exact Hin.
    + rewrite dataBounds_call in Hb. destruct c; auto.
      left. left. congruence.
Qed.

(** C5.  After [emitZoom R] on a service whose [dataBounds] are set, the
    stored range, which [getCurrentZoom] returns, is the requested range
    clamped to the bounds and lies within them: it starts no earlier than
    the bounds, ends no later, and every instant of it is an instant of
    the bounds.  This holds for every requested range, also one that lies
    partly or wholly outside the bounds. *)
Theorem emitZoom_within_dataBounds (s : State) (bounds R : TimeRange) :
  dataBounds s = Some bounds ->
  exists w,
    getCurrentZoom (emitZoom R s) = Some w /\
    w = mkTimeRange (Z.max (range_start R) (range_start bounds))
                    (Z.min (range_end R) (range_end bounds)) /\
    within w bounds /\
    (forall t, inRange t w -> inRange t bounds).
Proof.
  intros Hb. unfold emitZoom. rewrite Hb. simpl.
  eexists. split; [reflexivity|]. split; [reflexivity|].
  unfold within, inRange; simpl. split; [lia|]. intros t Ht. lia.
Qed.

Lemma emitZoom_within_dataBounds_witness :
  exists w,
    getCurrentZoom (emitZoom (mkTimeRange 30 40)
                      (setDataBounds (mkTimeRange 10 20) init)) = Some w /\
    w = mkTimeRange (Z.max 30 10) (Z.min 40 20) /\
    within w (mkTimeRange 10 20) /\
    (forall t, inRange t w -> inRange t (mkTimeRange 10 20)).
Proof.
  apply (emitZoom_within_dataBounds
           (setDataBounds (mkTimeRange 10 20) init)
           (mkTimeRange 10 20) (mkTimeRange 30 40)).
  reflexivity.
Defined.

(** The scenario of the specification: a request that starts before the
    bounds and ends after them stores the bounds themselves. *)
Lemma emitZoom_around_bounds (s : State) (bounds R : TimeRange) :
  dataBounds s = Some bounds ->
  (range_start R <= range_start bounds)%Z ->
  (range_end bounds <= range_end R)%Z ->
  getCurrentZoom (emitZoom R s) = Some bounds.
Proof.
  intros Hb H1 H2. unfold emitZoom. rewrite Hb. simpl.
  rewrite Z.max_r, Z.min_r by assumption. destruct bounds; reflexivity.
Qed.

(** A request wholly after the bounds is stored with its start past its
    end: no instant belongs to the stored range. *)
Example emitZoom_beyond_bounds :
  getCurrentZoom (emitZoom (mkTimeRange 30 40)
                    (setDataBounds (mkTimeRange 10 20) init)) =
  Some (mkTimeRange 30 20).
Proof. reflexivity. Qed.

(** C10.  On a service on which [setDataBounds] was never called, whatever
    else was called, [emitZoom R] stores exactly [R]; and the bounds that
    make [emitZoom] clamp are only ever those given to [setDataBounds]. *)
Theorem emitZoom_unclamped_without_bounds :
  (forall (calls : list Call) (R : TimeRange),
      forallb (fun c => negb (isSetDataBounds c)) calls = true ->
      getCurrentZoom (emitZoom R (run init calls)) = Some R) /\
  (forall (calls : list Call) (b : TimeRange),
      dataBounds (run init calls) = Some b -> In (SetDataBounds b) calls) /\
  (forall (s : State) (R : TimeRange),
      getCurrentZoom (emitZoom R s) <> Some R -> dataBounds s <> None).
Proof.
  split; [|split].
  - intros calls R H. unfold emitZoom.
    rewrite (dataBounds_run_unset calls init H). reflexivity.
  - intros calls b H. destruct (dataBounds_run_origin calls init b H) as [Hin|Hinit].
    + exact Hin.
    + discriminate Hinit.
  - intros s R H Hnone. apply H. unfold emitZoom. rewrite Hnone. reflexivity.
Qed.

Lemma emitZoom_unclamped_without_bounds_witness :
  getCurrentZoom
    (emitZoom (mkTimeRange 30 40)
       (run init [EmitZoom (mkTimeRange 1 2); ClearZoom; EmitHover None]))
  = Some (mkTimeRange 30 40).
Proof.
  apply (proj1 emitZoom_unclamped_without_bounds
           [EmitZoom (mkTimeRange 1 2); ClearZoom; EmitHover None]
           (mkTimeRange 30 40)).
  reflexivity.
Defined.

End SyncServiceFacts.

(** ** Schema inference *)

Section SchemaFacts.
Import JS DataModel CsvService Spec.

Lemma parsesAsFiniteNumber_eq value :
  negb (isNaN (parseFloat value)) && isFinite (parseFloat value) =
  parsesAsFiniteNumber value.
Proof. unfold parsesAsFiniteNumber. destruct (parseFloat value); reflexivity. Qed.


Lemma nonMissingValues_cons columnIndex line dataLines :
  nonMissingValues columnIndex (line :: dataLines) =
  lineValues columnIndex line ++ nonMissingValues columnIndex dataLines.
Proof. reflexivity. Qed.

(** What one iteration of the scan does to the three loop variables. *)
Lemma scanLine_step columnIndex st line :
  let st' := scanLine columnIndex st line in
  hasNumericData st' =
    hasNumericData st || existsb parsesAsFiniteNumber (lineValues columnIndex line) /\
  hasStringData st' =
    hasStringData st ||
    existsb (fun v => negb (parsesAsFiniteNumber v)) (lineValues columnIndex line) /\
  totalValues st <= totalValues st' /\
  (lineValues columnIndex line <> [] -> 0 < totalValues st').
Proof.
  unfold scanLine, lineValues, fieldAt.
  destruct (nth_error (split "," line) columnIndex) as [v|].
  - change (isMissing (Some v)) with (isNullToken (trim v)). cbn [truthy].
    destruct (String.eqb v "") eqn:Hempty; cbn [negb].
    + apply String.eqb_eq in Hempty. subst v.
      change (isNullToken (trim "")) with true. cbn [existsb].
      rewrite !orb_false_r. repeat split; auto. intros H; now elim H.
    + destruct (isNullToken (trim v)) eqn:Hmiss; cbn [negb existsb].
      * rewrite !orb_false_r. cbn. repeat split; auto. intros H; now elim H.
      * rewrite parsesAsFiniteNumber_eq.
        destruct (parsesAsFiniteNumber (trim v)); cbn;
          rewrite ?orb_false_r, ?orb_true_r; repeat split; auto; lia.
  - cbn. rewrite !orb_false_r. repeat split; auto. intros H; now elim H.
Qed.

(** The loop variables after the whole scan. *)
Lemma scan_fold columnIndex dataLines : forall st,
  let st' := fold_left (scanLine columnIndex) dataLines st in
  hasNumericData st' =
    hasNumericData st ||
    existsb parsesAsFiniteNumber (nonMissingValues columnIndex dataLines) /\
  hasStringData st' =
    hasStringData st ||
    existsb (fun v => negb (parsesAsFiniteNumber v))
            (nonMissingValues columnIndex dataLines) /\
  totalValues st <= totalValues st' /\
  (nonMissingValues columnIndex dataLines <> [] -> 0 < totalValues st').
Proof.
  induction dataLines as [|line dataLines IH]; intros st; simpl fold_left.
  - simpl. rewrite !orb_false_r. repeat split; auto. intros H; now elim H.
  - destruct (scanLine_step columnIndex st line) as (Hn & Hs & Ht & Hpos).
    destruct (IH (scanLine columnIndex st line)) as (Hn' & Hs' & Ht' & Hpos').
    cbv zeta. rewrite nonMissingValues_cons, !existsb_app.
    rewrite Hn', Hs', Hn, Hs, !orb_assoc.
    repeat split; auto; try lia.
    intros Hne.
    destruct (lineValues columnIndex line) eqn:Hl.
    + apply Hpos'. exact Hne.
    + assert (0 < totalValues (scanLine columnIndex st line))
        by (apply Hpos; discriminate).
      lia.
Qed.

(** [isNumericField] in the words of the numeric test. *)
Lemma isNumericField_spec columnIndex dataLines :
  isNumericField columnIndex dataLines = true <->
  (exists v, In v (nonMissingValues columnIndex dataLines) /\
             parsesAsFiniteNumber v = true) /\
  (forall v, In v (nonMissingValues columnIndex dataLines) ->
             parsesAsFiniteNumber v = true).
Proof.
  unfold isNumericField.
  destruct (scan_fold columnIndex dataLines (mkScan false false 0))
    as (Hn & Hs & _ & Hpos).
  cbv zeta in *. simpl in Hn, Hs. rewrite Hn, Hs. clear Hn Hs.
  set (vals := nonMissingValues columnIndex dataLines) in *.
  split.
  - intros H. apply andb_prop in H as [H Htot]. apply andb_prop in H as [He Hf].
    split.
    + apply existsb_exists in He. exact He.
    + intros v Hv. apply negb_true_iff in Hf.
      destruct (parsesAsFiniteNumber v) eqn:Hp; [reflexivity|].
      assert (existsb (fun v => negb (parsesAsFiniteNumber v)) vals = true).
      { apply existsb_exists. exists v. rewrite Hp. auto. }
      congruence.
  - intros [(v & Hv & Hp) Hall].
    apply andb_true_intro; split; [apply andb_true_intro; split|].
    + apply existsb_exists. eauto.
    + apply negb_true_iff.
      destruct (existsb (fun v => negb (parsesAsFiniteNumber v)) vals) eqn:He;
        [|reflexivity].
      apply existsb_exists in He as (w & Hw & Hpw).
      rewrite (Hall w Hw) in Hpw. discriminate.
    + apply Nat.ltb_lt. apply Hpos. intros Hnil. rewrite Hnil in Hv. exact Hv.
Qed.

Lemma nth_error_indexed_from {A} (l : list A) : forall k i index x,
  nth_error (combine (seq k (List.length l)) l) i = Some (index, x) ->
  index = k + i /\ nth_error l i = Some x.
Proof.
  induction l as [|a l IH]; intros k i index x H; simpl in H.
  - destruct i; discriminate.
  - destruct i; simpl in H.
    + inversion H; subst. split; [lia|reflexivity].
    + apply IH in H as [-> H]. split; [lia|exact H].
Qed.

(** The role at position [i] is the branch taken for the header at
    position [i], in some state of the analysis. *)
Lemma rolesFrom_nth dataLines ihs : forall st i r,
  nth_error (rolesFrom dataLines st ihs) i = Some r ->
  exists st' index header,
    nth_error ihs i = Some (index, header) /\
    r = headerRole dataLines st' index header.
Proof.
  induction ihs as [|[index header] ihs IH]; intros st i r H; simpl in H.
  - destruct i; discriminate.
  - destruct i; simpl in H.
    + inversion H; subst. exists st, index, header. split; reflexivity.
    + apply IH in H. exact H.
Qed.

Lemma headerRole_plain dataLines st index header :
  let r := headerRole dataLines st index header in
  r <> Datetime -> r <> Latitude -> r <> Longitude ->
  r = if isNumericField index dataLines then Numeric else Categorical.
Proof.
  unfold headerRole.
  repeat match goal with
         | |- context [if ?c then _ else _] =>
             lazymatch c with
             | isNumericField _ _ => fail
             | _ => destruct c
             end
         end; cbv zeta; intros; try congruence.
Qed.

(** C1.  A column that [analyzeHeaders] gives none of the datetime,
    latitude and longitude roles is given the numeric role if and only if,
    among its non-missing values, at least one parses as a finite number
    and none fails to; otherwise it is categorical.  In particular the
    column with the values 1, 2, north, 4 is categorical. *)
Theorem numeric_iff_all_values_finite :
  (forall (hs dataLines : list string) (i : nat) (r : Role),
      nth_error (columnRoles hs dataLines) i = Some r ->
      r <> Datetime -> r <> Latitude -> r <> Longitude ->
      (r = Numeric <->
       (exists v, In v (nonMissingValues i dataLines) /\
                  parsesAsFiniteNumber v = true) /\
       (forall v, In v (nonMissingValues i dataLines) ->
                  parsesAsFiniteNumber v = true)) /\
      (r <> Numeric -> r = Categorical)) /\
  columnRoles ["reading"] ["1"; "2"; "north"; "4"] = [Categorical].
Proof.
  split; [|reflexivity].
  intros hs dataLines i r Hr Hd Hla Hlo.
  unfold columnRoles in Hr.
  apply rolesFrom_nth in Hr as (st & index & header & Hnth & ->).
  apply nth_error_indexed_from in Hnth as [Hidx _]. simpl in Hidx. subst index.
  pose proof (headerRole_plain dataLines st i header Hd Hla Hlo) as Hrole.
  cbv zeta in Hrole. rewrite Hrole.
  rewrite <- isNumericField_spec.
  destruct (isNumericField i dataLines); split; try split;
    intros; congruence.
Qed.

Lemma numeric_iff_all_values_finite_witness :
  (Numeric = Numeric <->
   (exists v, In v (nonMissingValues 1 ["2020-01-01,1.5"; "2020-01-02,"; "2020-01-03, 7 "]) /\
              parsesAsFiniteNumber v = true) /\
   (forall v, In v (nonMissingValues 1 ["2020-01-01,1.5"; "2020-01-02,"; "2020-01-03, 7 "]) ->
              parsesAsFiniteNumber v = true)) /\
  (Numeric <> Numeric -> Numeric = Categorical).
Proof.
  apply (proj1 numeric_iff_all_values_finite ["time"; "temp"]
           ["2020-01-01,1.5"; "2020-01-02,"; "2020-01-03, 7 "] 1 Numeric).
  - reflexivity.
  - discriminate.
  - discriminate.
  - discriminate.
Defined.

End SchemaFacts.

(** ** Parsing and the fields offered for plotting *)

Section ParseFacts.
Import JS DataModel CsvService Spec.

Lemma split_not_nil sep s : split sep s <> [].
Proof.
  destruct s as [|c s]; simpl.
  - discriminate.
  - destruct (Ascii.eqb c sep); [discriminate|].
    destruct (split sep s); discriminate.
Qed.

(** [parseCsv] returns on every text: [lines[0]] is always there. *)
Lemma parseCsv_returns csvText : exists r, parseCsv csvText = Return r.
Proof.
  unfold parseCsv.
  destruct (split "010"%char (trim csvText)) as [|line0 rest] eqn:Hs.
  - elim (split_not_nil _ _ Hs).
  - simpl. eexists. reflexivity.
Qed.

(** C6, as the code has it.  Parsing an empty input does not fail:
    [parseCsv] returns, as it does on every text, and for a text that is
    empty once trimmed it returns no record, the one header [""] as a
    categorical field and one plot field for it; [parseFile] then
    publishes this result and resolves with the empty record sequence. *)
Theorem parseCsv_empty_input_returns :
  (forall csvText, exists r, parseCsv csvText = Return r) /\
  (forall csvText, trim csvText = "" ->
     parseCsv csvText = Return emptyParse /\
     forall s, parseFile csvText s =
               (mkService [] (Some (metadata emptyParse)) (fields emptyParse),
                Resolved [])).
Proof.
  split.
  - exact parseCsv_returns.
  - intros csvText Ht.
    assert (Hp : parseCsv csvText = Return emptyParse).
    { unfold parseCsv. rewrite Ht. reflexivity. }
    split; [exact Hp|].
    intros s. unfold parseFile. rewrite Hp. reflexivity.
Qed.

Lemma parseCsv_empty_input_returns_witness :
  parseCsv "   " = Return emptyParse /\
  forall s, parseFile "   " s =
            (mkService [] (Some (metadata emptyParse)) (fields emptyParse),
             Resolved []).
Proof.
  apply (proj2 parseCsv_empty_input_returns "   ").
  reflexivity.
Defined.

(** C6, as stated, fails on the empty text: nothing is thrown and the
    promise is not rejected. *)
Lemma parseCsv_empty_input_no_error :
  parseCsv "" = Return emptyParse /\
  (forall error, parseCsv "" <> Throw error) /\
  snd (parseFile "" newService) = Resolved [] /\
  (forall error, snd (parseFile "" newService) <> Rejected error).
Proof.
  repeat split; try reflexivity; intros error; discriminate.
Qed.

Lemma columnsWithRole_eq r hs roles :
  columnsWithRole r hs roles = map fst (filter (isRole r) (combine hs roles)).
Proof. reflexivity. Qed.

(** The two arrays [analyzeHeaders] fills are the headers of the numeric
    and of the categorical columns, in header order. *)
Lemma analyze_fold dataLines ihs : forall st,
  let st' := fold_left (analyzeHeader dataLines) ihs st in
  let roles := rolesFrom dataLines st ihs in
  a_numericFields st' =
    a_numericFields st ++ columnsWithRole Numeric (map snd ihs) roles /\
  a_categoricalFields st' =
    a_categoricalFields st ++ columnsWithRole Categorical (map snd ihs) roles.
Proof.
  induction ihs as [|[index header] ihs IH]; intros st.
  - simpl. rewrite !app_nil_r. split; reflexivity.
  - cbv zeta. cbn [fold_left rolesFrom map snd].
    destruct (IH (analyzeHeader dataLines st (index, header))) as [Hn Hc].
    cbv zeta in Hn, Hc. rewrite Hn, Hc. clear Hn Hc IH.
    rewrite !columnsWithRole_eq. cbn [combine filter].
    set (tl_roles := rolesFrom dataLines _ ihs).
    unfold analyzeHeader, isRole at 1 3. cbn [snd].
    destruct (headerRole dataLines st index header); cbn;
      rewrite <- ?app_assoc; split; reflexivity.
Qed.

Lemma map_snd_indexed {A} (l : list A) : map snd (indexed l) = l.
Proof.
  unfold indexed. generalize 0 as k.
  induction l as [|a l IH]; intros k; simpl; [reflexivity|].
  rewrite IH. reflexivity.
Qed.

Lemma analyzeHeaders_columns hs dataLines :
  let md := analyzeHeaders hs dataLines in
  headers md = hs /\
  numericFields md = columnsWithRole Numeric hs (columnRoles hs dataLines) /\
  categoricalFields md = columnsWithRole Categorical hs (columnRoles hs dataLines).
Proof.
  unfold analyzeHeaders, columnRoles. cbv zeta. simpl.
  destruct (analyze_fold dataLines (indexed hs) initialAnalysis) as [Hn Hc].
  cbv zeta in Hn, Hc. rewrite map_snd_indexed in Hn, Hc.
  rewrite Hn, Hc. repeat split; reflexivity.
Qed.

Lemma nth_error_map_indexed {A B} (F : nat * A -> B) (l : list A) p f :
  nth_error (map F (indexed l)) p = Some f ->
  exists k, nth_error l p = Some k /\ f = F (p, k).
Proof.
  intros H. rewrite nth_error_map in H.
  destruct (nth_error (indexed l) p) as [[index k]|] eqn:Hn; [|discriminate].
  apply nth_error_indexed_from in Hn as [-> Hk].
  exists k. split; [exact Hk|]. inversion H. reflexivity.
Qed.

Lemma length_indexed {A} (l : list A) : List.length (indexed l) = List.length l.
Proof. rewrite <- (map_snd_indexed l) at 2. now rewrite length_map. Qed.

Lemma paletteColor_cyclic i :
  nth_error DEFAULT_COLORS (i mod 15) = Some (paletteColor i).
Proof.
  unfold paletteColor. apply nth_error_nth'.
  change (List.length DEFAULT_COLORS) with 15. apply Nat.mod_upper_bound. lia.
Qed.

Lemma numericPlotFields_keys md :
  map key (numericPlotFields md) =
  filter (fun field => negb (sameField field (latitudeField md)) &&
                       negb (sameField field (longitudeField md)))
         (numericFields md).
Proof.
  unfold numericPlotFields. rewrite map_map.
  rewrite <- (map_snd_indexed (filter _ _)) at 2.
  apply map_ext. intros [index field]. reflexivity.
Qed.

Lemma categoricalPlotFields_keys md :
  map key (categoricalPlotFields md) = categoricalFields md.
Proof.
  unfold categoricalPlotFields. rewrite map_map.
  rewrite <- (map_snd_indexed (categoricalFields md)) at 2.
  apply map_ext. intros [index field]. reflexivity.
Qed.

(** The latitude and longitude fields, when set, are headers that took
    that role. *)
Lemma special_fields_fold dataLines ihs : forall st,
  let st' := fold_left (analyzeHeader dataLines) ihs st in
  let cols := combine (map snd ihs) (rolesFrom dataLines st ihs) in
  (a_latitudeField st' = a_latitudeField st \/
   exists h, a_latitudeField st' = Some h /\ In (h, Latitude) cols) /\
  (a_longitudeField st' = a_longitudeField st \/
   exists h, a_longitudeField st' = Some h /\ In (h, Longitude) cols).
Proof.
  induction ihs as [|[index header] ihs IH]; intros st.
  - cbn. split; left; reflexivity.
  - cbv zeta. cbn [fold_left rolesFrom map snd combine].
    destruct (IH (analyzeHeader dataLines st (index, header))) as [Hla Hlo].
    cbv zeta in Hla, Hlo. clear IH.
    set (st1 := analyzeHeader dataLines st (index, header)) in *.
    set (tl_cols := combine (map snd ihs) (rolesFrom dataLines st1 ihs)) in *.
    assert (Hst1 :
      (headerRole dataLines st index header = Latitude /\
       a_latitudeField st1 = Some header \/
       a_latitudeField st1 = a_latitudeField st) /\
      (headerRole dataLines st index header = Longitude /\
       a_longitudeField st1 = Some header \/
       a_longitudeField st1 = a_longitudeField st)).
    { unfold st1, analyzeHeader.
      destruct (headerRole dataLines st index header); cbn; split; auto. }
    destruct Hst1 as [Hla1 Hlo1]. split.
    + destruct Hla as [Hla|(h & Hh & Hin)].
      * destruct Hla1 as [[Hr Hs]|Hs]; rewrite Hla, Hs.
        -- right. exists header. split; [reflexivity|]. left. now rewrite Hr.
        -- left. reflexivity.
      * right. exists h. split; [exact Hh|]. right. exact Hin.
    + destruct Hlo as [Hlo|(h & Hh & Hin)].
      * destruct Hlo1 as [[Hr Hs]|Hs]; rewrite Hlo, Hs.
        -- right. exists header. split; [reflexivity|]. left. now rewrite Hr.
        -- left. reflexivity.
      * right. exists h. split; [exact Hh|]. right. exact Hin.
Qed.

(** Among distinct headers, a header has one role. *)
Lemma combine_NoDup_role (hs : list string) : forall (roles : list Role) h r1 r2,
  NoDup hs ->
  In (h, r1) (combine hs roles) -> In (h, r2) (combine hs roles) -> r1 = r2.
Proof.
  induction hs as [|a hs IH]; intros roles h r1 r2 Hnd H1 H2.
  - now elim H1.
  - destruct roles as [|r roles]; [now elim H1|].
    inversion Hnd as [|? ? Hnotin Hnd']; subst.
    cbn [combine] in H1, H2.
    destruct H1 as [E1|H1], H2 as [E2|H2].
    + congruence.
    + inversion E1; subst. apply in_combine_l in H2. now elim Hnotin.
    + inversion E2; subst. apply in_combine_l in H1. now elim Hnotin.
    + eapply IH; eauto.
Qed.

Lemma filter_all {A} (p : A -> bool) (l : list A) :
  (forall x, In x l -> p x = true) -> filter p l = l.
Proof.
  induction l as [|a l IH]; intros H; [reflexivity|].
  cbn. rewrite (H a) by now left. f_equal. apply IH.
  intros x Hx. apply H. now right.
Qed.

(** With distinct header names, no numeric column carries the name of the
    latitude or longitude column. *)
Lemma numeric_keys_all hs dataLines :
  NoDup hs ->
  let md := analyzeHeaders hs dataLines in
  filter (fun k => negb (sameField k (latitudeField md)) &&
                   negb (sameField k (longitudeField md)))
         (columnsWithRole Numeric hs (columnRoles hs dataLines)) =
  columnsWithRole Numeric hs (columnRoles hs dataLines).
Proof.
  intros Hnd md. apply filter_all. intros k Hk.
  unfold columnsWithRole in Hk. apply in_map_iff in Hk as ([k' r] & Hfst & Hin).
  simpl in Hfst. subst k'. apply filter_In in Hin as [Hin Hrole].
  assert (r = Numeric) by (destruct r; cbn in Hrole; congruence). subst r.
  destruct (special_fields_fold dataLines (indexed hs) initialAnalysis) as [Hla Hlo].
  cbv zeta in Hla, Hlo. rewrite map_snd_indexed in Hla, Hlo.
  fold (columnRoles hs dataLines) in Hla, Hlo.
  change (a_latitudeField (fold_left (analyzeHeader dataLines) (indexed hs) initialAnalysis))
    with (latitudeField md) in Hla.
  change (a_longitudeField (fold_left (analyzeHeader dataLines) (indexed hs) initialAnalysis))
    with (longitudeField md) in Hlo.
  apply andb_true_intro. split; apply negb_true_iff.
  - destruct Hla as [Hla|(h & Hh & Hhin)]; rewrite ?Hla, ?Hh; [reflexivity|].
    cbn [sameField]. apply String.eqb_neq. intros ->.
    pose proof (combine_NoDup_role hs _ _ _ _ Hnd Hin Hhin). discriminate.
  - destruct Hlo as [Hlo|(h & Hh & Hhin)]; rewrite ?Hlo, ?Hh; [reflexivity|].
    cbn [sameField]. apply String.eqb_neq. intros ->.
    pose proof (combine_NoDup_role hs _ _ _ _ Hnd Hin Hhin). discriminate.
Qed.

(** C9, as the code has it.  The plot fields are the numeric columns in
    header order (without any whose header text is that of the latitude
    or longitude column) followed by the categorical columns in header
    order; the field at position [p] of this sequence has the palette
    colour [p mod 15]; the first two numeric fields and the first
    categorical field are selected, and no other.  With distinct header
    names no numeric column is left out. *)
Theorem plotFields_numeric_then_categorical (csvText : string) :
  exists r,
    parseCsv csvText = Return r /\
    let md := metadata r in
    let roles := columnRoles (headers md) (dataLinesOf csvText) in
    let numericKeys :=
      filter (fun k => negb (sameField k (latitudeField md)) &&
                       negb (sameField k (longitudeField md)))
             (columnsWithRole Numeric (headers md) roles) in
    let categoricalKeys := columnsWithRole Categorical (headers md) roles in
    map key (fields r) = numericKeys ++ categoricalKeys /\
    (NoDup (headers md) ->
     numericKeys = columnsWithRole Numeric (headers md) roles) /\
    forall p f, nth_error (fields r) p = Some f ->
      label f = formatFieldLabel (key f) /\
      nth_error DEFAULT_COLORS (p mod 15) = Some (color f) /\
      (p < List.length numericKeys ->
       dataType f = DTnumber /\ selected f = (p <? 2)%nat) /\
      (List.length numericKeys <= p ->
       dataType f = DTstring /\ selected f = (p - List.length numericKeys <? 1)%nat).
Proof.
  unfold parseCsv, dataLinesOf.
  destruct (split "010"%char (trim csvText)) as [|line0 rest] eqn:Hs.
  { elim (split_not_nil _ _ Hs). }
  cbn [nth_error]. eexists. split; [reflexivity|].
  cbn [metadata fields].
  set (hs := map trim (split "," line0)).
  set (dl := skipn 1 (line0 :: rest)).
  destruct (analyzeHeaders_columns hs dl) as (Hh & Hn & Hc).
  cbv zeta in Hh, Hn, Hc. set (md := analyzeHeaders hs dl) in *.
  cbv zeta. rewrite Hh, <- Hn, <- Hc.
  assert (Hlen : List.length (numericPlotFields md) =
                 List.length (filter (fun k => negb (sameField k (latitudeField md)) &&
                                               negb (sameField k (longitudeField md)))
                                     (numericFields md))).
  { rewrite <- numericPlotFields_keys. now rewrite length_map. }
  split; [|split].
  - rewrite map_app, numericPlotFields_keys, categoricalPlotFields_keys. reflexivity.
  - intros Hnd. rewrite Hn. apply numeric_keys_all. exact Hnd.
  - intros p f Hf. rewrite <- Hlen.
    destruct (Nat.lt_ge_cases p (List.length (numericPlotFields md))) as [Hlt|Hge].
    + rewrite nth_error_app1 in Hf by exact Hlt.
      apply nth_error_map_indexed in Hf as (k & _ & ->).
      cbn [key label selected color dataType].
      split; [reflexivity|]. split; [apply paletteColor_cyclic|].
      split; intros Hp; [split; reflexivity | lia].
    + rewrite nth_error_app2 in Hf by exact Hge.
      apply nth_error_map_indexed in Hf as (k & _ & ->).
      cbn [key label selected color dataType].
      replace (List.length (numericPlotFields md) +
               (p - List.length (numericPlotFields md))) with p by lia.
      split; [reflexivity|]. split; [apply paletteColor_cyclic|].
      split; intros Hp; [lia | split; reflexivity].
Qed.

Lemma plotFields_numeric_then_categorical_witness :
  let csvText := String.append "time,status,temp"
                   (String "010"%char "2020-01-01,A,1") in
  exists r,
    parseCsv csvText = Return r /\
    map key (fields r) = ["temp"; "status"] /\
    (forall p f, nth_error (fields r) p = Some f ->
                 nth_error DEFAULT_COLORS (p mod 15) = Some (color f)).
Proof.
  cbv zeta.
  destruct (plotFields_numeric_then_categorical
              (String.append "time,status,temp"
                 (String "010"%char "2020-01-01,A,1")))
    as (r & Hr & Hkeys & _ & Hpos).
  exists r. split; [exact Hr|]. split.
  - rewrite Hkeys. clear Hkeys Hpos.
    vm_compute in Hr. inversion Hr as [Er]. vm_compute. reflexivity.
  - intros p f Hf. apply (Hpos p f Hf).
Defined.

(** C9, as stated, fails when a categorical column comes before a numeric
    one: the plot fields are [temp; status], the header order of these
    columns is [status; temp]. *)
Lemma plotFields_not_in_header_order :
  let csvText := String.append "time,status,temp"
                   (String "010"%char "2020-01-01,A,1") in
  exists r,
    parseCsv csvText = Return r /\
    columnRoles (headers (metadata r)) (dataLinesOf csvText) =
      [Datetime; Categorical; Numeric] /\
    plottableColumns (headers (metadata r))
      (columnRoles (headers (metadata r)) (dataLinesOf csvText)) =
      ["status"; "temp"] /\
    map key (fields r) = ["temp"; "status"] /\
    map key (fields r) <>
    plottableColumns (headers (metadata r))
      (columnRoles (headers (metadata r)) (dataLinesOf csvText)).
Proof.
  cbv zeta. eexists. split; [reflexivity|].
  repeat split; try (vm_compute; reflexivity).
  intros H. vm_compute in H. discriminate H.
Qed.

End ParseFacts.

(** ** Decimation *)

Section DecimationFacts.
Import ChartComponent Spec.

Context {DataPoint : Type}.
Variable sameObject : forall a b : DataPoint, {a = b} + {a <> b}.

Lemma strictEquals_true (a b : option DataPoint) :
  strictEquals sameObject a b = true <-> a = b.
Proof.
  destruct a as [p|], b as [q|]; simpl; try destruct (sameObject p q);
    split; intros; congruence.
Qed.

Lemma lastOf_snoc (l : list DataPoint) d : lastOf (l ++ [d]) = Some d.
Proof.
  unfold lastOf. destruct (l ++ [d]) eqn:H.
  - destruct l; discriminate.
  - rewrite <- H, length_app. simpl.
    rewrite nth_error_app2 by lia.
    replace (List.length l + 1 - 1 - List.length l) with 0 by lia. reflexivity.
Qed.

Lemma lastOf_some (l : list DataPoint) :
  l <> [] -> exists d, lastOf l = Some d /\ nth_error l (List.length l - 1) = Some d.
Proof.
  intros Hne. destruct l as [|a l]; [now elim Hne|].
  unfold lastOf.
  destruct (nth_error (a :: l) (List.length (a :: l) - 1)) as [d|] eqn:Hn.
  - exists d. split; reflexivity.
  - apply nth_error_None in Hn. simpl in Hn. lia.
Qed.

Lemma ceilDiv_zero b : 0 < b -> ceilDiv 0 b = 0.
Proof. intros Hb. unfold ceilDiv. apply Nat.div_small. lia. Qed.

Lemma ceilDiv_succ a b :
  0 < b -> 0 < a -> ceilDiv a b = S (ceilDiv (a - b) b).
Proof.
  intros Hb Ha. unfold ceilDiv.
  destruct (le_lt_dec a b) as [Hle|Hgt].
  - replace (a - b) with 0 by lia.
    rewrite (Nat.div_small (0 + b - 1) b) by lia.
    symmetry. apply (Nat.div_unique _ _ _ (a - 1)); lia.
  - replace (a + b - 1) with ((a - b + b - 1) + 1 * b) by lia.
    rewrite Nat.div_add by lia. lia.
Qed.

(** [a <= ceilDiv a b * b], and one step less falls short of [a]. *)
Lemma ceilDiv_upper a b : 0 < b -> a <= ceilDiv a b * b.
Proof.
  intros Hb. unfold ceilDiv.
  pose proof (Nat.div_mod_eq (a + b - 1) b) as E.
  pose proof (Nat.mod_upper_bound (a + b - 1) b ltac:(lia)) as M.
  nia.
Qed.

Lemma ceilDiv_lower a b k : 0 < b -> k < ceilDiv a b -> k * b < a.
Proof.
  intros Hb Hk. unfold ceilDiv in Hk.
  pose proof (Nat.div_mod_eq (a + b - 1) b) as E.
  nia.
Qed.

Lemma ceilDiv_exact k b : 0 < b -> ceilDiv (k * b + 1) b = S k.
Proof.
  intros Hb. unfold ceilDiv.
  replace (k * b + 1 + b - 1) with (S k * b) by lia.
  apply Nat.div_mul. lia.
Qed.

(** The stride loop pushes the elements at [i], [i + step], ... *)
Lemma keepLoop_pick (data : list DataPoint) step : 0 < step ->
  forall fuel i decimated,
    ceilDiv (List.length data - i) step <= fuel ->
    keepLoop fuel data step i decimated =
    Some (decimated ++
          pick data (map (fun k => i + k * step)
                         (seq 0 (ceilDiv (List.length data - i) step)))).
Proof.
  intros Hstep. induction fuel as [|fuel IH]; intros i decimated Hfuel.
  - simpl. destruct (i <? List.length data) eqn:Hi.
    + apply Nat.ltb_lt in Hi.
      rewrite (ceilDiv_succ (List.length data - i) step) in Hfuel by lia. lia.
    + apply Nat.ltb_ge in Hi.
      replace (List.length data - i) with 0 by lia.
      rewrite ceilDiv_zero by lia. simpl. now rewrite app_nil_r.
  - simpl. destruct (i <? List.length data) eqn:Hi.
    + apply Nat.ltb_lt in Hi.
      rewrite (ceilDiv_succ (List.length data - i) step) in * by lia.
      replace (List.length data - i - step) with (List.length data - (i + step)) in * by lia.
      rewrite IH by lia.
      destruct (nth_error data i) as [d|] eqn:Hd;
        [|apply nth_error_None in Hd; lia].
      cbn [push]. rewrite <- app_assoc. f_equal. f_equal.
      rewrite <- cons_seq, <- seq_shift. cbn [map]. rewrite map_map.
      unfold pick. cbn [flat_map].
      replace (i + 0 * step) with i by lia. rewrite Hd. cbn [app]. f_equal.
      f_equal. apply map_ext. intros k. lia.
    + apply Nat.ltb_ge in Hi.
      replace (List.length data - i) with 0 by lia.
      rewrite ceilDiv_zero by lia. simpl. now rewrite app_nil_r.
Qed.

Lemma ceilDiv_le_self a b : 0 < b -> ceilDiv a b <= a.
Proof.
  intros Hb. destruct a as [|a]; [rewrite ceilDiv_zero; lia|].
  unfold ceilDiv. apply Nat.Div0.div_le_upper_bound.
  nia.
Qed.

(** The stride of a long array is positive, and at most 2000 indices are
    kept. *)
Lemma stride_bounds len :
  0 < len -> 0 < ceilDiv len 2000 /\ ceilDiv len (ceilDiv len 2000) <= 2000.
Proof.
  intros Hlen.
  pose proof (ceilDiv_upper len 2000 ltac:(lia)) as Hup.
  assert (Hpos : 0 < ceilDiv len 2000) by lia.
  split; [exact Hpos|].
  set (step := ceilDiv len 2000) in *.
  unfold ceilDiv. apply Nat.lt_succ_r.
  apply Nat.Div0.div_lt_upper_bound. lia.
Qed.

Lemma keptIndices_in_range len step :
  0 < step -> Forall (fun i => i < len) (keptIndices len step).
Proof.
  intros Hstep. unfold keptIndices. apply Forall_forall. intros i Hi.
  apply in_map_iff in Hi as (k & <- & Hk). apply in_seq in Hk.
  apply ceilDiv_lower; lia.
Qed.

Lemma pick_length (data : list DataPoint) indices :
  Forall (fun i => i < List.length data) indices ->
  List.length (pick data indices) = List.length indices.
Proof.
  induction 1 as [|i indices Hi _ IH]; [reflexivity|].
  unfold pick in *. cbn [flat_map]. rewrite length_app, IH.
  destruct (nth_error data i) eqn:Hd; [reflexivity|].
  apply nth_error_None in Hd. lia.
Qed.

Lemma pick_app (data : list DataPoint) l1 l2 :
  pick data (l1 ++ l2) = pick data l1 ++ pick data l2.
Proof. unfold pick. apply flat_map_app. Qed.

Lemma kept_length (data : list DataPoint) step :
  0 < step ->
  List.length (pick data (keptIndices (List.length data) step)) =
  ceilDiv (List.length data) step.
Proof.
  intros Hstep. rewrite pick_length by now apply keptIndices_in_range.
  unfold keptIndices. now rewrite length_map, length_seq.
Qed.

(** The whole loop of [decimateData]. *)
Lemma keepLoop_all (data : list DataPoint) step :
  0 < step ->
  keepLoop (List.length data) data step 0 [] =
  Some (pick data (keptIndices (List.length data) step)).
Proof.
  intros Hstep.
  rewrite keepLoop_pick; rewrite ?Nat.sub_0_r; try assumption.
  - reflexivity.
  - now apply ceilDiv_le_self.
Qed.

Lemma decimateData_small (data : list DataPoint) :
  List.length data <= 2000 -> decimateData sameObject data = Some data.
Proof.
  intros H. unfold decimateData. apply Nat.leb_le in H. now rewrite H.
Qed.

Lemma decimateData_large (data : list DataPoint) :
  2000 < List.length data ->
  let kept := pick data (keptIndices (List.length data)
                                     (ceilDiv (List.length data) 2000)) in
  decimateData sameObject data =
  Some (if strictEquals sameObject (lastOf kept) (lastOf data)
        then kept else push kept (lastOf data)).
Proof.
  intros H. unfold decimateData.
  destruct (List.length data <=? 2000) eqn:Hle;
    [apply Nat.leb_le in Hle; lia|].
  cbv zeta. rewrite keepLoop_all by (apply stride_bounds; lia).
  destruct (strictEquals sameObject _ _); reflexivity.
Qed.

(** When the last index is a multiple of the stride, the last element
    kept by the loop is the last element of the array. *)
Lemma kept_last_of_multiple (data : list DataPoint) step k d :
  0 < step ->
  List.length data = k * step + 1 ->
  nth_error data (k * step) = Some d ->
  lastOf (pick data (keptIndices (List.length data) step)) = Some d.
Proof.
  intros Hstep Hlen Hd. unfold keptIndices.
  rewrite Hlen, ceilDiv_exact by assumption.
  rewrite seq_S, map_app, pick_app. cbn [map Nat.add].
  unfold pick at 2. cbn [flat_map]. rewrite Hd. cbn [app].
  apply lastOf_snoc.
Qed.

Lemma lastOf_In (l : list DataPoint) d : lastOf l = Some d -> In d l.
Proof.
  unfold lastOf. destruct l; [discriminate|]. apply nth_error_In.
Qed.

(** For distinct objects, the comparison of [decimateData] holds exactly
    when the last element is among those the loop kept. *)
Lemma kept_last_iff_In (data : list DataPoint) step lastRecord :
  0 < step -> NoDup data ->
  nth_error data (List.length data - 1) = Some lastRecord ->
  let kept := pick data (keptIndices (List.length data) step) in
  strictEquals sameObject (lastOf kept) (Some lastRecord) = true <->
  In lastRecord kept.
Proof.
  intros Hstep Hnd Hlast kept. rewrite strictEquals_true. split.
  - apply lastOf_In.
  - intros Hin. unfold kept, pick in Hin.
    apply in_flat_map in Hin as (i & Hi & Hd).
    destruct (nth_error data i) as [d|] eqn:Hnth; [|now elim Hd].
    destruct Hd as [->|[]].
    assert (Hlt : i < List.length data)
      by (apply nth_error_Some; congruence).
    assert (i = List.length data - 1) as Hi'.
    { apply (proj1 (NoDup_nth_error data) Hnd); [exact Hlt | congruence]. }
    unfold keptIndices in Hi. apply in_map_iff in Hi as (k & Hk & _).
    apply (kept_last_of_multiple data step k); [assumption|lia|].
    rewrite Hk, Hi'. exact Hlast.
Qed.

(** C3.  For a non-empty array, [decimateData] (target 2000) returns the
    array itself when it has at most 2000 elements; otherwise it returns
    the elements at the indices 0, step, 2 step, ... with
    step = ceil(length / 2000), followed by the last element unless the
    last element kept is that very object (for distinct objects: unless it
    was already kept).  So the result always ends with the last element
    of the array and has at most 2001 elements, in particular for an
    array of 5000. *)
Theorem decimateData_keeps_stride_and_last (data : list DataPoint) :
  data <> [] ->
  let len := List.length data in
  let step := ceilDiv len 2000 in
  let kept := pick data (keptIndices len step) in
  (len <= 2000 -> decimateData sameObject data = Some data) /\
  (2000 < len ->
   exists lastRecord,
     lastOf data = Some lastRecord /\
     List.length kept = ceilDiv len step /\
     decimateData sameObject data =
       Some (if strictEquals sameObject (lastOf kept) (Some lastRecord)
             then kept else kept ++ [lastRecord]) /\
     (NoDup data ->
      (strictEquals sameObject (lastOf kept) (Some lastRecord) = true <->
       In lastRecord kept))) /\
  (exists out,
     decimateData sameObject data = Some out /\
     lastOf out = lastOf data /\
     List.length out <= 2001).
Proof.
  intros Hne len step kept.
  destruct (lastOf_some data Hne) as (lastRecord & Hlast & Hnth).
  assert (Hlen : 0 < len) by (subst len; destruct data; [now elim Hne|simpl; lia]).
  destruct (stride_bounds len Hlen) as [Hstep Hbound]. fold step in Hstep, Hbound.
  assert (Hk : List.length kept = ceilDiv len step)
    by (apply kept_length; exact Hstep).
  split; [apply decimateData_small|]. split.
  - intros Hbig. exists lastRecord. split; [exact Hlast|]. split; [exact Hk|].
    split.
    + rewrite decimateData_large by exact Hbig. fold len step kept.
      rewrite Hlast. reflexivity.
    + intros Hnd. apply kept_last_iff_In; assumption.
  - destruct (le_lt_dec len 2000) as [Hsmall|Hbig].
    + exists data. rewrite decimateData_small by exact Hsmall.
      split; [reflexivity|]. split; [reflexivity|]. fold len. lia.
    + rewrite decimateData_large by exact Hbig. fold len step kept.
      rewrite Hlast.
      destruct (strictEquals sameObject (lastOf kept) (Some lastRecord)) eqn:Heq.
      * exists kept. split; [reflexivity|].
        apply strictEquals_true in Heq. split; [exact Heq|]. lia.
      * exists (kept ++ [lastRecord]). cbn [push]. split; [reflexivity|].
        split; [apply lastOf_snoc|]. rewrite length_app. simpl. lia.
Qed.

(** [decimateData] returns on every array. *)
Lemma decimateData_returns (data : list DataPoint) :
  exists out, decimateData sameObject data = Some out.
Proof.
  destruct (le_lt_dec (List.length data) 2000) as [Hsmall|Hbig].
  - exists data. now apply decimateData_small.
  - rewrite decimateData_large by exact Hbig. eexists. reflexivity.
Qed.

(** An array of more than 2000 elements comes out shorter. *)
Lemma decimateData_shrinks (data out : list DataPoint) :
  2000 < List.length data ->
  decimateData sameObject data = Some out ->
  List.length out < List.length data.
Proof.
  intros Hbig Hout. rewrite decimateData_large in Hout by exact Hbig.
  set (len := List.length data) in *. set (step := ceilDiv len 2000) in *.
  set (kept := pick data (keptIndices len step)) in *.
  destruct (stride_bounds len ltac:(lia)) as [Hstep _]. fold step in Hstep.
  pose proof (ceilDiv_upper len 2000 ltac:(lia)) as Hup. fold step in Hup.
  assert (Hk : List.length kept = ceilDiv len step) by (apply kept_length; exact Hstep).
  assert (Hlow : (ceilDiv len step - 1) * step < len).
  { apply ceilDiv_lower; [exact Hstep|].
    pose proof (ceilDiv_upper len step Hstep). nia. }
  assert (Hlen : List.length kept + 1 < len) by nia.
  cbv zeta in Hout.
  destruct (strictEquals sameObject (lastOf kept) (lastOf data));
    inversion Hout; subst out; [lia|].
  destruct (lastOf data); cbn [push]; rewrite ?length_app; simpl; lia.
Qed.

(** The arrays [decimateData] leaves as they are: those of at most 2000
    elements. *)
Lemma decimateData_fixpoint_iff (data : list DataPoint) :
  decimateData sameObject data = Some data <-> List.length data <= 2000.
Proof.
  split.
  - intros H. destruct (le_lt_dec (List.length data) 2000) as [Hs|Hb]; [exact Hs|].
    pose proof (decimateData_shrinks data data Hb H). lia.
  - apply decimateData_small.
Qed.

(** C7.  [decimateData] always returns, and applying it to its own result
    gives that result again once the size is within the target of 2000:
    exactly when the first result has at most 2000 elements, which is the
    case whenever the array itself has at most 2000. *)
Theorem decimateData_idempotent_within_target (data : list DataPoint) :
  exists out,
    decimateData sameObject data = Some out /\
    (List.length out <= 2000 -> decimateData sameObject out = Some out) /\
    (decimateData sameObject out = Some out -> List.length out <= 2000) /\
    (List.length data <= 2000 -> out = data /\ List.length out <= 2000).
Proof.
  destruct (decimateData_returns data) as [out Hout].
  exists out. split; [exact Hout|].
  split; [apply decimateData_fixpoint_iff|].
  split; [apply decimateData_fixpoint_iff|].
  intros Hsmall. rewrite decimateData_small in Hout by exact Hsmall.
  inversion Hout; subst. split; [reflexivity|exact Hsmall].
Qed.

End DecimationFacts.

Lemma decimateData_idempotent_within_target_witness :
  exists out,
    ChartComponent.decimateData Nat.eq_dec [3; 1; 2] = Some out /\
    ChartComponent.decimateData Nat.eq_dec out = Some out.
Proof.
  destruct (decimateData_idempotent_within_target Nat.eq_dec [3; 1; 2])
    as (out & Hout & Hidem & _ & Hsmall).
  exists out. split; [exact Hout|].
  apply Hidem. apply Hsmall. simpl. lia.
Defined.

Lemma decimateData_keeps_stride_and_last_witness :
  let data := seq 0 5000 in
  let len := List.length data in
  let step := ChartComponent.ceilDiv len 2000 in
  let kept := Spec.pick data (Spec.keptIndices len step) in
  (len <= 2000 -> ChartComponent.decimateData Nat.eq_dec data = Some data) /\
  (2000 < len ->
   exists lastRecord,
     ChartComponent.lastOf data = Some lastRecord /\
     List.length kept = ChartComponent.ceilDiv len step /\
     ChartComponent.decimateData Nat.eq_dec data =
       Some (if ChartComponent.strictEquals Nat.eq_dec
                  (ChartComponent.lastOf kept) (Some lastRecord)
             then kept else kept ++ [lastRecord]) /\
     (NoDup data ->
      (ChartComponent.strictEquals Nat.eq_dec
         (ChartComponent.lastOf kept) (Some lastRecord) = true <->
       In lastRecord kept))) /\
  (exists out,
     ChartComponent.decimateData Nat.eq_dec data = Some out /\
     ChartComponent.lastOf out = ChartComponent.lastOf data /\
     List.length out <= 2001).
Proof.
  apply (decimateData_keeps_stride_and_last Nat.eq_dec (seq 0 5000)).
  discriminate.
Defined.

(** The scenario of 5000 records, evaluated: 1667 records are kept by the
    stride of 3 and the last one, at index 4999, is appended. *)
Example decimateData_5000 :
  option_map (fun out => (List.length out, ChartComponent.lastOf out))
             (ChartComponent.decimateData Nat.eq_dec (seq 0 5000)) =
  Some (1668, Some 4999).
Proof. vm_compute. reflexivity. Qed.

(** Without the size condition the second application changes the result:
    4000 records give 2001, and these give 1001. *)
Example decimateData_twice_4000 :
  option_map
    (fun out => (List.length out,
                 option_map (@List.length nat)
                            (ChartComponent.decimateData Nat.eq_dec out)))
    (ChartComponent.decimateData Nat.eq_dec (seq 0 4000)) =
  Some (2001, Some 1001).
Proof. vm_compute. reflexivity. Qed.

(** ** Nearest point *)

Section NearestFacts.
Import StateChartComponent Spec.

Context {DataPoint : Type}.
Variable datetime : DataPoint -> Z.

(** Ascending order, by positions. *)
Lemma StronglySorted_nth (R : Z -> Z -> Prop) (ts : list Z) :
  StronglySorted R ts ->
  forall i j ti tj, i < j ->
    nth_error ts i = Some ti -> nth_error ts j = Some tj -> R ti tj.
Proof.
  induction 1 as [|t ts Hs IH Hall]; intros i j ti tj Hij Hi Hj.
  - destruct i; discriminate.
  - destruct j as [|j]; [lia|]. simpl in Hj. destruct i as [|i]; simpl in Hi.
    + inversion Hi; subst. rewrite Forall_forall in Hall.
      apply Hall. eapply nth_error_In; eauto.
    + apply (IH i j ti tj); [lia | exact Hi | exact Hj].
Qed.

Lemma ascending_nth (ts : list Z) :
  Sorted Z.le ts ->
  forall i j ti tj, i <= j ->
    nth_error ts i = Some ti -> nth_error ts j = Some tj -> (ti <= tj)%Z.
Proof.
  intros Hs i j ti tj Hij Hi Hj.
  apply Sorted_StronglySorted in Hs; [|intros a b c; apply Z.le_trans].
  destruct (Nat.eq_dec i j) as [->|Hne].
  - rewrite Hi in Hj. inversion Hj. lia.
  - apply (StronglySorted_nth Z.le ts Hs i j ti tj); [lia | exact Hi | exact Hj].
Qed.

Lemma nth_error_datetime (a : list DataPoint) i :
  nth_error (map datetime a) i = option_map datetime (nth_error a i).
Proof. apply nth_error_map. Qed.

(** The binary search narrows [lo, hi] down to the lower bound. *)
Lemma bisectLeft_narrows (a : list DataPoint) (x : Z) (lo hi : nat) :
  Sorted Z.le (map datetime a) ->
  lo <= hi -> hi <= List.length a ->
  (forall i t, i < lo -> nth_error (map datetime a) i = Some t -> (t < x)%Z) ->
  (forall i t, hi <= i -> nth_error (map datetime a) i = Some t -> (x <= t)%Z) ->
  lowerBound (map datetime a) x (bisectLeft datetime a x lo hi).
Proof.
  intros Hs. funelim (bisectLeft datetime a x lo hi);
    intros Hlohi Hhi Hbelow Habove.
  - (* lo >= hi *)
    assert (lo = hi) by lia. subst hi.
    unfold lowerBound. rewrite length_map. repeat split; auto.
  - (* a[mid] is read out of range: excluded by hi <= length *)
    exfalso.
    match goal with H : nth_error a _ = None |- _ =>
      apply nth_error_None in H;
      pose proof (Nat.div_mod_eq (lo + hi) 2);
      pose proof (Nat.mod_upper_bound (lo + hi) 2); lia end.
  - (* a[mid] < x *)
    match goal with IH : _ -> _ -> _ -> _ -> _ -> lowerBound _ _ _ |- _ =>
      apply IH; auto end.
    + pose proof (Nat.div_mod_eq (lo + hi) 2);
      pose proof (Nat.mod_upper_bound (lo + hi) 2); lia.
    + intros i t Hi Ht.
      match goal with
        Hd : nth_error a _ = Some ?d, Hlt : (datetime ?d <? x)%Z = true |- _ =>
          apply Z.ltb_lt in Hlt;
          assert ((t <= datetime d)%Z)
            by (eapply (ascending_nth _ Hs i ((lo + hi) / 2));
                [lia | exact Ht | rewrite nth_error_datetime, Hd; reflexivity]);
          lia
      end.
  - (* a[mid] >= x *)
    match goal with IH : _ -> _ -> _ -> _ -> _ -> lowerBound _ _ _ |- _ =>
      apply IH; auto end.
    + pose proof (Nat.div_mod_eq (lo + hi) 2);
      pose proof (Nat.mod_upper_bound (lo + hi) 2); lia.
    + pose proof (Nat.div_mod_eq (lo + hi) 2);
      pose proof (Nat.mod_upper_bound (lo + hi) 2); lia.
    + intros i t Hi Ht.
      match goal with
        Hd : nth_error a _ = Some ?d, Hlt : (datetime ?d <? x)%Z = false |- _ =>
          apply Z.ltb_ge in Hlt;
          assert ((datetime d <= t)%Z)
            by (eapply (ascending_nth _ Hs ((lo + hi) / 2) i);
                [lia | rewrite nth_error_datetime, Hd; reflexivity | exact Ht]);
          lia
      end.
Qed.

(** [bisect(this.data, date)] is the lower-bound insertion index. *)
Lemma bisectLeft_lowerBound (data : list DataPoint) (date : Z) :
  Sorted Z.le (map datetime data) ->
  lowerBound (map datetime data) date
             (bisectLeft datetime data date 0 (List.length data)).
Proof.
  intros Hs. apply bisectLeft_narrows; auto; try lia.
  intros i t Hi Ht.
  assert (i < List.length (map datetime data))
    by (apply nth_error_Some; congruence).
  rewrite length_map in *. lia.
Qed.

Lemma lowerBound_unique (ts : list Z) (x : Z) (i j : nat) :
  lowerBound ts x i -> lowerBound ts x j -> i = j.
Proof.
  intros (Hi & Hbi & Hai) (Hj & Hbj & Haj).
  destruct (Nat.lt_trichotomy i j) as [Hlt|[Heq|Hgt]]; [|exact Heq|].
  - destruct (nth_error ts i) as [t|] eqn:Ht;
      [|apply nth_error_None in Ht; lia].
    pose proof (Hbj i t Hlt Ht). pose proof (Hai i t (le_n _) Ht). lia.
  - destruct (nth_error ts j) as [t|] eqn:Ht;
      [|apply nth_error_None in Ht; lia].
    pose proof (Hbi j t Hgt Ht). pose proof (Haj j t (le_n _) Ht). lia.
Qed.

Lemma Sorted_lt_le (ts : list Z) : Sorted Z.lt ts -> Sorted Z.le ts.
Proof.
  induction 1 as [|t ts Hs IH Hhd]; constructor; auto.
  destruct Hhd; constructor. lia.
Qed.

(** The three cases of the lookup, by the index the search returns. *)
Lemma closestPoint_cases (data : list DataPoint) (date : Z) :
  let index := bisectLeft datetime data date 0 (List.length data) in
  (index = 0 -> closestPoint datetime data date = nth_error data 0) /\
  (index <> 0 -> index = List.length data ->
   closestPoint datetime data date = nth_error data (List.length data - 1)) /\
  (0 < index < List.length data ->
   exists left_ right_,
     nth_error data (index - 1) = Some left_ /\
     nth_error data index = Some right_ /\
     ((datetime right_ - date < date - datetime left_)%Z ->
      closestPoint datetime data date = Some right_) /\
     ((date - datetime left_ <= datetime right_ - date)%Z ->
      closestPoint datetime data date = Some left_)).
Proof.
  intros index. unfold closestPoint. fold index.
  split; [|split].
  - intros ->. reflexivity.
  - intros Hne Hlen.
    destruct (index =? 0) eqn:H0; [apply Nat.eqb_eq in H0; lia|].
    apply Nat.eqb_eq in Hlen. rewrite Hlen. reflexivity.
  - intros [Hpos Hlt].
    destruct (index =? 0) eqn:H0; [apply Nat.eqb_eq in H0; lia|].
    destruct (index =? List.length data) eqn:H1; [apply Nat.eqb_eq in H1; lia|].
    destruct (nth_error data (index - 1)) as [l|] eqn:Hl;
      [|apply nth_error_None in Hl; lia].
    destruct (nth_error data index) as [r|] eqn:Hr;
      [|apply nth_error_None in Hr; lia].
    exists l, r. repeat split.
    + intros Hcloser.
      destruct (date - datetime l >? datetime r - date)%Z eqn:Hc; [reflexivity|].
      rewrite Z.gtb_ltb in Hc. apply Z.ltb_ge in Hc. lia.
    + intros Hnot.
      destruct (date - datetime l >? datetime r - date)%Z eqn:Hc; [|reflexivity].
      rewrite Z.gtb_ltb in Hc. apply Z.ltb_lt in Hc. lia.
Qed.

(** C4, as the code has it.  On records sorted by ascending timestamp the
    lookup takes the lower-bound insertion index of the query; at index 0
    it returns the first record, at the length the last one, and in
    between the successor when the successor is strictly closer and the
    predecessor otherwise, so that a tie goes to the predecessor. *)
Theorem closestPoint_by_lower_bound (data : list DataPoint) (date : Z) :
  Sorted Z.le (map datetime data) ->
  exists index,
    lowerBound (map datetime data) date index /\
    (index = 0 -> closestPoint datetime data date = nth_error data 0) /\
    (index <> 0 -> index = List.length data ->
     closestPoint datetime data date = nth_error data (List.length data - 1)) /\
    (0 < index < List.length data ->
     exists left_ right_,
       nth_error data (index - 1) = Some left_ /\
       nth_error data index = Some right_ /\
       ((datetime right_ - date < date - datetime left_)%Z ->
        closestPoint datetime data date = Some right_) /\
       ((date - datetime left_ <= datetime right_ - date)%Z ->
        closestPoint datetime data date = Some left_)).
Proof.
  intros Hs. exists (bisectLeft datetime data date 0 (List.length data)).
  split; [now apply bisectLeft_lowerBound|].
  apply closestPoint_cases.
Qed.

(** C8.  On records sorted by strictly ascending timestamp, a query equal
    to the timestamp of a record returns that record. *)
Theorem closestPoint_exact_timestamp (data : list DataPoint) (i : nat)
    (d : DataPoint) :
  Sorted Z.lt (map datetime data) ->
  nth_error data i = Some d ->
  closestPoint datetime data (datetime d) = Some d.
Proof.
  intros Hs Hd.
  assert (Hle : Sorted Z.le (map datetime data)) by now apply Sorted_lt_le.
  assert (Hss : StronglySorted Z.lt (map datetime data))
    by (apply Sorted_StronglySorted; [intros a b c; apply Z.lt_trans | exact Hs]).
  assert (Hi : i < List.length data) by (apply nth_error_Some; congruence).
  assert (Hti : nth_error (map datetime data) i = Some (datetime d))
    by (rewrite nth_error_datetime, Hd; reflexivity).
  assert (Hlb : lowerBound (map datetime data) (datetime d) i).
  { unfold lowerBound. rewrite length_map. split; [lia|]. split.
    - intros j t Hj Ht.
      apply (StronglySorted_nth Z.lt _ Hss j i t (datetime d) Hj Ht Hti).
    - intros j t Hj Ht. destruct (Nat.eq_dec i j) as [<-|Hne].
      + rewrite Hti in Ht. inversion Ht. lia.
      + assert (datetime d < t)%Z; [|lia].
        apply (StronglySorted_nth Z.lt _ Hss i j (datetime d) t); auto. lia. }
  pose proof (bisectLeft_lowerBound data (datetime d) Hle) as Hindex.
  destruct (closestPoint_cases data (datetime d)) as (H0 & _ & Hmid).
  cbv zeta in H0, Hmid.
  replace (bisectLeft datetime data (datetime d) 0 (List.length data)) with i
    in H0, Hmid by (eapply lowerBound_unique; eauto).
  destruct i as [|i].
  - rewrite H0 by reflexivity. exact Hd.
  - destruct Hmid as (l & r & Hl & Hr & Hright & _); [lia|].
    rewrite Hd in Hr. inversion Hr; subst r.
    apply Hright.
    assert (Hlt : nth_error (map datetime data) (S i - 1) = Some (datetime l))
      by (rewrite nth_error_datetime, Hl; reflexivity).
    pose proof (StronglySorted_nth Z.lt _ Hss (S i - 1) (S i) _ _
                  ltac:(lia) Hlt Hti).
    lia.
Qed.

End NearestFacts.

Lemma closestPoint_by_lower_bound_witness :
  exists index,
    Spec.lowerBound (map (fun t : Z => t) [0; 10; 30]%Z) 21%Z index /\
    (index = 0 ->
     StateChartComponent.closestPoint (fun t : Z => t) [0; 10; 30]%Z 21%Z =
     nth_error [0; 10; 30]%Z 0) /\
    (index <> 0 -> index = List.length [0; 10; 30]%Z ->
     StateChartComponent.closestPoint (fun t : Z => t) [0; 10; 30]%Z 21%Z =
     nth_error [0; 10; 30]%Z (List.length [0; 10; 30]%Z - 1)) /\
    (0 < index < List.length [0; 10; 30]%Z ->
     exists left_ right_,
       nth_error [0; 10; 30]%Z (index - 1) = Some left_ /\
       nth_error [0; 10; 30]%Z index = Some right_ /\
       ((right_ - 21 < 21 - left_)%Z ->
        StateChartComponent.closestPoint (fun t : Z => t) [0; 10; 30]%Z 21%Z =
        Some right_) /\
       ((21 - left_ <= right_ - 21)%Z ->
        StateChartComponent.closestPoint (fun t : Z => t) [0; 10; 30]%Z 21%Z =
        Some left_)).
Proof.
  apply (closestPoint_by_lower_bound (fun t : Z => t) [0; 10; 30]%Z 21%Z).
  simpl. repeat constructor; lia.
Defined.

(** C4, as stated, fails on a tie: the query 5 is as far from the
    predecessor 0 as from the successor 10, and the predecessor is
    returned. *)
Lemma closestPoint_tie_goes_to_predecessor :
  Spec.lowerBound (map (fun t : Z => t) [0; 10]%Z) 5%Z 1 /\
  (5 - 0 = 10 - 5)%Z /\
  StateChartComponent.closestPoint (fun t : Z => t) [0; 10]%Z 5%Z = Some 0%Z /\
  StateChartComponent.closestPoint (fun t : Z => t) [0; 10]%Z 5%Z <> Some 10%Z.
Proof.
  split; [|split; [reflexivity|split; [reflexivity|discriminate]]].
  unfold Spec.lowerBound. simpl. split; [lia|]. split.
  - intros i t Hi Ht. destruct i as [|i]; [|lia]. inversion Ht. lia.
  - intros i t Hi Ht. destruct i as [|[|i]]; [lia| |].
    + inversion Ht. lia.
    + destruct i; discriminate.
Qed.

Lemma closestPoint_exact_timestamp_witness :
  StateChartComponent.closestPoint (fun t : Z => t) [0; 10; 30]%Z 10%Z = Some 10%Z.
Proof.
  apply (closestPoint_exact_timestamp (fun t : Z => t) [0; 10; 30]%Z 1 10%Z).
  - simpl. repeat constructor; lia.
  - reflexivity.
Defined.

(** ** Segments and gaps *)

Section IntervalFacts.
Import Spec.

Lemma Chained_bounds R a b l :
  (forall x, R x x) -> (forall x y z, R x y -> R y z -> R x z) ->
  Chained R a b l ->
  R a b /\ Forall (fun i => R a (fst i) /\ R (fst i) (snd i) /\ R (snd i) b) l.
Proof.
  intros Hrefl Htrans. induction 1 as [a|a c b l Hac Hl [Hcb IH]].
  - split; [apply Hrefl|constructor].
  - split; [eapply Htrans; eauto|].
    constructor; [simpl; auto|].
    eapply Forall_impl; [|exact IH]. simpl.
    intros i (H1 & H2 & H3). repeat split; auto. eapply Htrans; eauto.
Qed.

Lemma Chained_byStart a b l : Chained Z.le a b l -> byStart l.
Proof.
  induction 1 as [a|a c b l Hac Hl IH]; [constructor|].
  constructor; [exact IH|].
  destruct Hl; constructor. simpl. exact Hac.
Qed.

Lemma Chained_contiguous R a b l : Chained R a b l -> contiguous l.
Proof.
  induction 1 as [a|a c b l Hac Hl IH]; [exact I|].
  destruct Hl; [exact I|]. split; [reflexivity|exact IH].
Qed.

Lemma last_cons_default {A} (l : list A) : forall x d,
  last (x :: l) d = last l x.
Proof.
  induction l as [|y l IH]; intros x d; [reflexivity|].
  change (last (x :: y :: l) d) with (last (y :: l) d).
  rewrite IH. symmetry. apply IH.
Qed.

Lemma Chained_ends R a b l :
  Chained R a b l -> l <> [] -> firstStart l = Some a /\ lastEnd l = Some b.
Proof.
  induction 1 as [a|a c b l Hac Hl IH]; intros Hne; [now elim Hne|].
  split; [reflexivity|].
  destruct Hl as [c|c e b l Hce Hl].
  - reflexivity.
  - destruct IH as [_ IH]; [discriminate|].
    unfold lastEnd in *. rewrite last_cons_default. exact IH.
Qed.

Lemma Chained_noOverlap a b l : Chained Z.le a b l -> noOverlap l.
Proof.
  induction 1 as [a|a c b l Hac Hl IH]; [constructor|].
  constructor; [|exact IH].
  destruct (Chained_bounds Z.le c b l Z.le_refl Z.le_trans Hl) as [_ Hall].
  eapply Forall_impl; [|exact Hall]. simpl. intros i (H1 & _). exact H1.
Qed.

Lemma Chained_covers a b l : Chained Z.le a b l -> l <> [] -> covers l a b.
Proof.
  induction 1 as [a|a c b l Hac Hl IH]; intros Hne t Ht; [now elim Hne|].
  destruct (Z_le_gt_dec t c) as [Hle|Hgt].
  - apply Exists_cons_hd. simpl. lia.
  - apply Exists_cons_tl. apply IH; [|lia].
    intros ->. inversion Hl; subst. lia.
Qed.

(** Intervals whose starts strictly increase have one ordering by
    start. *)
Lemma byStart_unique (l : list Interval) : forall l',
  StronglySorted Z.lt (map fst l) ->
  Permutation l' l -> byStart l' -> l' = l.
Proof.
  induction l as [|x l IH]; intros l' Hs Hp Hb.
  - apply Permutation_nil. now apply Permutation_sym.
  - destruct l' as [|y l'].
    + apply Permutation_nil_cons in Hp. now elim Hp.
    + simpl in Hs. apply StronglySorted_inv in Hs as [Hs Hx].
      assert (Hb' : StronglySorted (fun i j => (fst i <= fst j)%Z) (y :: l')).
      { apply Sorted_StronglySorted; [|exact Hb].
        intros p q r. apply Z.le_trans. }
      apply StronglySorted_inv in Hb' as [_ Hy].
      assert (Hyx : (fst y <= fst x)%Z).
      { assert (Hin : In x (y :: l'))
          by (eapply Permutation_in; [apply Permutation_sym; exact Hp|now left]).
        destruct Hin as [->|Hin]; [lia|].
        rewrite Forall_forall in Hy. now apply Hy. }
      assert (y = x).
      { assert (Hin : In y (x :: l)) by (eapply Permutation_in; [exact Hp|now left]).
        destruct Hin as [->|Hin]; [reflexivity|].
        rewrite Forall_forall in Hx.
        assert (fst x < fst y)%Z by (apply Hx; now apply in_map).
        lia. }
      subst y. f_equal. apply IH.
      * exact Hs.
      * eapply Permutation_cons_inv; exact Hp.
      * now inversion Hb.
Qed.

End IntervalFacts.

Section SegmentFacts.
Import StateChartComponent Spec.

Context {DataPoint Any : Type}.
Variable datetime : DataPoint -> Z.
Variable fieldOf : DataPoint -> Any.
Variable isNullish : Any -> bool.
Variable toString : Any -> string.

(** Closing the current run adds its interval to those closed so far. *)
Lemma endCurrent_intervals colors (r : Runs) (endTime : Z) :
  Permutation (intervalsOf (endCurrent toString colors r endTime))
              (intervalsOf (segments r, nullGaps r) ++ [(segmentStart r, endTime)]).
Proof.
  unfold endCurrent, intervalsOf. destruct (isCurrentNull r); cbn [fst snd].
  - rewrite map_app, app_assoc. apply Permutation_refl.
  - rewrite map_app, <- !app_assoc. apply Permutation_app_head.
    apply Permutation_app_comm.
Qed.

(** The test of the loop body is the break of a run. *)
Lemma visit_breaks colors (r : Runs) (d : DataPoint) :
  isCurrentNull r = isNullish (currentState r) ->
  visit datetime fieldOf isNullish toString colors r d =
  if breaksRun isNullish toString (currentState r) (fieldOf d)
  then mkRuns (fst (endCurrent toString colors r (datetime d)))
              (snd (endCurrent toString colors r (datetime d)))
              (fieldOf d) (datetime d) (isNullish (fieldOf d))
  else r.
Proof.
  intros Hnull. unfold visit, breaksRun. rewrite Hnull.
  rewrite (String.eqb_sym (toString (fieldOf d))).
  destruct (endCurrent toString colors r (datetime d)) as [segs gaps].
  destruct (isNullish (fieldOf d)), (isNullish (currentState r)),
    (String.eqb (toString (currentState r)) (toString (fieldOf d)));
    reflexivity.
Qed.

(** The two arrays hold, between them, the intervals of the runs. *)
Lemma fold_runs colors (rest : list DataPoint) : forall (r : Runs) (lastTime : Z),
  isCurrentNull r = isNullish (currentState r) ->
  Permutation
    (intervalsOf (endCurrent toString colors
                    (fold_left (visit datetime fieldOf isNullish toString colors) rest r)
                    lastTime))
    (intervalsOf (segments r, nullGaps r) ++
     runsFrom datetime fieldOf isNullish toString
              (currentState r) (segmentStart r) rest lastTime).
Proof.
  induction rest as [|d rest IH]; intros r lastTime Hnull.
  - apply endCurrent_intervals.
  - cbn [fold_left runsFrom]. rewrite visit_breaks by exact Hnull.
    destruct (breaksRun isNullish toString (currentState r) (fieldOf d)).
    + eapply Permutation_trans; [apply IH; reflexivity|].
      cbn [segments nullGaps currentState segmentStart].
      rewrite <- surjective_pairing.
      change ((segmentStart r, datetime d) :: ?l)
        with ([(segmentStart r, datetime d)] ++ l).
      rewrite app_assoc. apply Permutation_app_tail.
      apply endCurrent_intervals.
    + apply IH. exact Hnull.
Qed.

Lemma nth_error_last (first : DataPoint) (rest : list DataPoint) :
  nth_error (first :: rest) (List.length (first :: rest) - 1) =
  Some (last rest first).
Proof.
  revert first. induction rest as [|d rest IH]; intros first; [reflexivity|].
  specialize (IH d). rewrite last_cons_default.
  cbn [List.length] in *.
  replace (S (S (List.length rest)) - 1) with (S (List.length rest)) by lia.
  replace (S (List.length rest) - 1) with (List.length rest) in IH by lia.
  exact IH.
Qed.

Lemma createStateSegments_runs (first : DataPoint) (rest : list DataPoint) :
  exists sg,
    createStateSegments datetime fieldOf isNullish toString (first :: rest) = Some sg /\
    Permutation (runIntervals datetime fieldOf isNullish toString (first :: rest))
                (intervalsOf sg).
Proof.
  unfold createStateSegments. rewrite nth_error_last.
  eexists. split; [reflexivity|].
  apply Permutation_sym.
  eapply Permutation_trans; [apply fold_runs; reflexivity|].
  apply Permutation_refl.
Qed.

(** On ascending timestamps the runs lead from the start of the first run
    to the last timestamp. *)
Lemma runsFrom_chained (rest : list DataPoint) : forall current start lastTime,
  StronglySorted Z.le (start :: map datetime rest) ->
  Forall (fun t => (t <= lastTime)%Z) (start :: map datetime rest) ->
  Chained Z.le start lastTime
          (runsFrom datetime fieldOf isNullish toString current start rest lastTime).
Proof.
  induction rest as [|d rest IH]; intros current start lastTime Hs Hl.
  - cbn. constructor; [now inversion Hl|constructor].
  - cbn [runsFrom map] in *.
    apply StronglySorted_inv in Hs as [Hs Hstart].
    apply Forall_inv_tail in Hl as Hl'.
    destruct (breaksRun isNullish toString current (fieldOf d)).
    + constructor; [now inversion Hstart|]. apply IH; assumption.
    + apply IH.
      * apply StronglySorted_inv in Hs as [Hs _].
        constructor; [exact Hs|now inversion Hstart].
      * constructor; [now inversion Hl|now inversion Hl'].
Qed.

(** On strictly ascending timestamps the starts of the runs strictly
    increase. *)
Lemma runsFrom_starts (rest : list DataPoint) : forall current start lastTime,
  StronglySorted Z.lt (start :: map datetime rest) ->
  exists tl,
    map fst (runsFrom datetime fieldOf isNullish toString current start rest lastTime)
    = start :: tl /\
    incl tl (map datetime rest) /\
    StronglySorted Z.lt (start :: tl).
Proof.
  induction rest as [|d rest IH]; intros current start lastTime Hs.
  - exists []. cbn. repeat split; [apply incl_refl|exact Hs].
  - cbn [runsFrom map] in *.
    apply StronglySorted_inv in Hs as [Hs Hstart].
    destruct (breaksRun isNullish toString current (fieldOf d)).
    + destruct (IH (fieldOf d) (datetime d) lastTime Hs) as (tl & Htl & Hincl & Hsorted).
      exists (datetime d :: tl). cbn [map fst]. rewrite Htl.
      split; [reflexivity|]. split.
      * apply incl_cons; [now left|]. now apply incl_tl.
      * constructor; [exact Hsorted|].
        constructor; [now inversion Hstart|].
        apply Forall_forall. intros t Ht.
        rewrite Forall_forall in Hstart. apply Hstart. right. now apply Hincl.
    + destruct (IH current start lastTime) as (tl & Htl & Hincl & Hsorted).
      * apply StronglySorted_inv in Hs as [Hs _].
        constructor; [exact Hs|now inversion Hstart].
      * exists tl. split; [exact Htl|]. split; [now apply incl_tl|exact Hsorted].
Qed.

Lemma runsFrom_not_nil (rest : list DataPoint) current start lastTime :
  runsFrom datetime fieldOf isNullish toString current start rest lastTime <> [].
Proof.
  revert current start. induction rest as [|d rest IH]; intros current start;
    cbn; [discriminate|].
  destruct (breaksRun isNullish toString current (fieldOf d));
    [discriminate|apply IH].
Qed.

Lemma ascending_le_last (ts : list Z) : forall t0,
  StronglySorted Z.le (t0 :: ts) ->
  Forall (fun t => (t <= last ts t0)%Z) (t0 :: ts).
Proof.
  induction ts as [|t1 ts IH]; intros t0 Hs.
  - constructor; [simpl; lia|constructor].
  - apply StronglySorted_inv in Hs as [Hs Ht0].
    specialize (IH t1 Hs). rewrite last_cons_default.
    constructor; [|exact IH].
    apply Forall_inv in IH. apply Forall_inv in Ht0. lia.
Qed.

Lemma last_map_datetime (rest : list DataPoint) : forall first,
  datetime (last rest first) = last (map datetime rest) (datetime first).
Proof.
  induction rest as [|d rest IH]; intros first; [reflexivity|].
  cbn [map]. rewrite !last_cons_default. apply IH.
Qed.

(** C2.  For a non-empty record sequence sorted by ascending timestamp,
    the segments and gaps [createStateSegments] produces for a field are,
    taken together, the runs of the field; in time order, which is an
    order by start, they are contiguous, each ending where the next
    starts, they do not overlap, and they cover exactly the interval from
    the first timestamp to the last one; the final run ends at the last
    record's timestamp, and a single record gives one zero-width
    interval.  When the timestamps are strictly ascending this is the only
    ordering by start. *)
Theorem segments_and_gaps_tile_extent (first : DataPoint) (rest : list DataPoint) :
  let data := first :: rest in
  let lastRecord := last rest first in
  Sorted Z.le (map datetime data) ->
  exists sg tiles,
    createStateSegments datetime fieldOf isNullish toString data = Some sg /\
    tiles = runIntervals datetime fieldOf isNullish toString data /\
    Permutation tiles (intervalsOf sg) /\
    byStart tiles /\
    contiguous tiles /\
    noOverlap tiles /\
    Forall (fun i => (datetime first <= fst i <= snd i)%Z /\
                     (snd i <= datetime lastRecord)%Z) tiles /\
    firstStart tiles = Some (datetime first) /\
    lastEnd tiles = Some (datetime lastRecord) /\
    covers tiles (datetime first) (datetime lastRecord) /\
    (rest = [] -> intervalsOf sg = [(datetime first, datetime first)]) /\
    (Sorted Z.lt (map datetime data) ->
     forall tiles', Permutation tiles' (intervalsOf sg) -> byStart tiles' ->
                    tiles' = tiles).
Proof.
  intros data lastRecord Hsorted.
  destruct (createStateSegments_runs first rest) as (sg & Hsg & Hperm).
  exists sg, (runIntervals datetime fieldOf isNullish toString data).
  split; [exact Hsg|]. split; [reflexivity|]. split; [exact Hperm|].
  assert (Hss : StronglySorted Z.le (datetime first :: map datetime rest))
    by (apply Sorted_StronglySorted; [intros a b c; apply Z.le_trans|exact Hsorted]).
  assert (Hchain : Chained Z.le (datetime first) (datetime lastRecord)
                     (runIntervals datetime fieldOf isNullish toString data)).
  { unfold data, runIntervals. apply runsFrom_chained; [exact Hss|].
    unfold lastRecord. rewrite last_map_datetime. now apply ascending_le_last. }
  assert (Hne : runIntervals datetime fieldOf isNullish toString data <> [])
    by apply runsFrom_not_nil.
  destruct (Chained_ends _ _ _ _ Hchain Hne) as [Hfirst Hlast].
  destruct (Chained_bounds Z.le _ _ _ Z.le_refl Z.le_trans Hchain) as [_ Hall].
  split; [eapply Chained_byStart; exact Hchain|].
  split; [eapply Chained_contiguous; exact Hchain|].
  split; [eapply Chained_noOverlap; exact Hchain|].
  split; [eapply Forall_impl; [|exact Hall]; simpl; intros i; lia|].
  split; [exact Hfirst|]. split; [exact Hlast|].
  split; [now apply Chained_covers|].
  split.
  - intros ->. unfold data, runIntervals in Hperm. cbn in Hperm.
    apply Permutation_length_1_inv in Hperm. exact Hperm.
  - intros Hstrict tiles' Hperm' Hby.
    apply byStart_unique; [|eapply Permutation_trans;
                             [exact Hperm'|apply Permutation_sym; exact Hperm]
                           |exact Hby].
    assert (Hss' : StronglySorted Z.lt (datetime first :: map datetime rest))
      by (apply Sorted_StronglySorted; [intros a b c; apply Z.lt_trans|exact Hstrict]).
    destruct (runsFrom_starts rest (fieldOf first) (datetime first)
                (datetime lastRecord) Hss')
      as (tl & Htl & _ & Hs).
    unfold data, runIntervals. fold lastRecord. rewrite Htl. exact Hs.
Qed.

End SegmentFacts.

Lemma segments_and_gaps_tile_extent_witness :
  let first := (0%Z, Some "A") in
  let rest := [(10%Z, Some "A"); (20%Z, @None string); (30%Z, Some "B")] in
  exists sg tiles,
    StateChartComponent.createStateSegments
      fst snd Spec.textNullish Spec.textString (first :: rest) = Some sg /\
    tiles = Spec.runIntervals fst snd Spec.textNullish Spec.textString
              (first :: rest) /\
    Permutation tiles (Spec.intervalsOf sg) /\
    Spec.byStart tiles /\
    Spec.contiguous tiles /\
    Spec.noOverlap tiles /\
    Forall (fun i => (fst first <= fst i <= snd i)%Z /\
                     (snd i <= fst (last rest first))%Z) tiles /\
    Spec.firstStart tiles = Some (fst first) /\
    Spec.lastEnd tiles = Some (fst (last rest first)) /\
    Spec.covers tiles (fst first) (fst (last rest first)) /\
    (rest = [] -> Spec.intervalsOf sg = [(fst first, fst first)]) /\
    (Sorted Z.lt (map fst (first :: rest)) ->
     forall tiles', Permutation tiles' (Spec.intervalsOf sg) -> Spec.byStart tiles' ->
                    tiles' = tiles).
Proof.
  apply (segments_and_gaps_tile_extent fst snd Spec.textNullish Spec.textString
           (0%Z, Some "A")
           [(10%Z, Some "A"); (20%Z, @None string); (30%Z, Some "B")]).
  simpl. repeat constructor; lia.
Defined.

(** The scenario of the specification: status A, A, B, B at four
    increasing instants gives the segments A on [t0, t2] and B on
    [t2, t3]; temp 1, 2, missing, 4 gives one gap on [t2, t3]. *)
Example createStateSegments_scenario :
  option_map Spec.intervalsOf
    (StateChartComponent.createStateSegments fst snd Spec.textNullish Spec.textString
       [(0%Z, Some "A"); (1%Z, Some "A"); (2%Z, Some "B"); (3%Z, Some "B")])
  = Some [(0, 2); (2, 3)]%Z /\
  option_map (fun sg => map Spec.gapInterval (snd sg))
    (StateChartComponent.createStateSegments fst snd Spec.textNullish Spec.textString
       [(0%Z, Some "1"); (1%Z, Some "2"); (2%Z, None); (3%Z, Some "4")])
  = Some [(2, 3)]%Z.
Proof. split; reflexivity. Qed.

(** With equal timestamps a run can have zero width and share its start
    with the next one: the gap on [0, 0] and the segment on [0, 1] are
    contiguous in time order, the order by start that the runs have; the
    other order of these two equal starts is not. *)
Example createStateSegments_equal_timestamps :
  option_map Spec.intervalsOf
    (StateChartComponent.createStateSegments fst snd Spec.textNullish Spec.textString
       [(0%Z, None); (0%Z, Some "A"); (1%Z, Some "A")])
  = Some [(0, 1); (0, 0)]%Z /\
  Spec.runIntervals fst snd Spec.textNullish Spec.textString
       [(0%Z, None); (0%Z, Some "A"); (1%Z, Some "A")]
  = [(0, 0); (0, 1)]%Z /\
  Spec.contiguous [(0, 0); (0, 1)]%Z /\
  ~ Spec.contiguous [(0, 1); (0, 0)]%Z.
Proof.
  repeat split; try reflexivity. intros [H _]. discriminate H.
Qed.

(* ===================================================================== *)
(** * Part III: further properties of the code                            *)
(* ===================================================================== *)

(** ** The sync service over a session *)

Section SyncSessionFacts.
Import DataModel SyncService Spec.

(** X1.  With bounds set, the stored window is the intersection of the request
    and the bounds: an instant is in it exactly when it is in both. *)
Theorem emitZoom_stores_intersection (s : State) (bounds R : TimeRange) :
  dataBounds s = Some bounds ->
  exists w,
    getCurrentZoom (emitZoom R s) = Some w /\
    forall t, inRange t w <-> inRange t R /\ inRange t bounds.
Proof.
  intros Hb. unfold emitZoom. rewrite Hb. cbn.
  eexists. split; [reflexivity|].
  intros t. unfold inRange. cbn. lia.
Qed.

Lemma emitZoom_stores_intersection_witness :
  exists w,
    getCurrentZoom (emitZoom (mkTimeRange 5 15)
                      (setDataBounds (mkTimeRange 10 20) init)) = Some w /\
    forall t, inRange t w <->
              inRange t (mkTimeRange 5 15) /\ inRange t (mkTimeRange 10 20).
Proof.
  apply (emitZoom_stores_intersection
           (setDataBounds (mkTimeRange 10 20) init)
           (mkTimeRange 10 20) (mkTimeRange 5 15)).
  reflexivity.
Defined.

(** X2.  Emitting the stored window again stores it again unchanged, with or
    without bounds: clamping a clamped range changes nothing. *)
Theorem emitZoom_stored_window_is_stable (s : State) (R : TimeRange) :
  exists w,
    getCurrentZoom (emitZoom R s) = Some w /\
    getCurrentZoom (emitZoom w (emitZoom R s)) = Some w.
Proof.
  unfold emitZoom. cbn. destruct (dataBounds s) as [b|]; cbn.
  - eexists. split; [reflexivity|]. cbn [range_start range_end].
    f_equal. f_equal; lia.
  - exists R. split; reflexivity.
Qed.

Lemma zoomSubject_call s c :
  zoomSubject (call s c) =
  match c with
  | EmitZoom _ | ClearZoom => last (zoomEmitted (call s c)) None
  | _ => zoomSubject s
  end.
Proof.
  destruct c; cbn; try reflexivity.
  - unfold emitZoom, zoomNext. cbn. now rewrite last_last.
  - now rewrite last_last.
Qed.

Lemma zoomEmitted_call s c :
  zoomEmitted (call s c) =
  zoomEmitted s ++ (if isZoomCall c then [zoomSubject (call s c)] else []).
Proof.
  destruct c; cbn; rewrite ?app_nil_r; reflexivity.
Qed.

Lemma hoverEmitted_call s c :
  hoverEmitted (call s c) = hoverEmitted s ++ hoverEventsOf [c].
Proof.
  destruct c; cbn; rewrite ?app_nil_r; reflexivity.
Qed.

Lemma run_snoc s calls c : run s (calls ++ [c]) = call (run s calls) c.
Proof. unfold run. now rewrite fold_left_app. Qed.

(** X3.  Through any sequence of calls on a new service, the current window is
    the value last delivered to the zoom subscribers ([null] if none was),
    one value is delivered per [emitZoom] or [clearZoom], and the hover
    subscribers receive exactly the hover events, in order. *)
Theorem current_zoom_is_last_delivered (calls : list Call) :
  getCurrentZoom (run init calls) = last (zoomEmitted (run init calls)) None /\
  List.length (zoomEmitted (run init calls)) =
    List.length (filter isZoomCall calls) /\
  hoverEmitted (run init calls) = hoverEventsOf calls.
Proof.
  induction calls as [|c calls IH] using rev_ind.
  - repeat split.
  - destruct IH as (Hcur & Hlen & Hhover).
    rewrite run_snoc. unfold getCurrentZoom in *. repeat split.
    + rewrite zoomSubject_call. destruct c; try reflexivity.
      * rewrite Hcur. cbn. reflexivity.
      * rewrite Hcur. cbn. reflexivity.
    + rewrite zoomEmitted_call, length_app, filter_app, length_app, Hlen.
      cbn. destruct (isZoomCall c); reflexivity.
    + rewrite hoverEmitted_call, Hhover. unfold hoverEventsOf.
      now rewrite flat_map_app.
Qed.

(** X4.  Once the bounds are set and not set again, whatever hover, zoom and
    clear calls follow, a window written after that lies within them. *)
Theorem zoom_within_bounds_through_session (s0 : State) (bounds : TimeRange)
    (calls : list Call) :
  forallb (fun c => negb (isSetDataBounds c)) calls = true ->
  existsb isZoomCall calls = true ->
  forall w,
    getCurrentZoom (run (setDataBounds bounds s0) calls) = Some w ->
    within w bounds.
Proof.
  induction calls as [|c calls IH] using rev_ind; intros Hno Hzoom w Hw.
  - discriminate Hzoom.
  - rewrite forallb_app in Hno. apply andb_prop in Hno as [Hno Hc].
    cbn in Hc. rewrite andb_true_r in Hc.
    rewrite run_snoc in Hw.
    assert (Hb : dataBounds (run (setDataBounds bounds s0) calls) = Some bounds)
      by (rewrite dataBounds_run_unset by exact Hno; reflexivity).
    destruct c as [event|b|R|]; cbn in Hw.
    + apply IH; auto. rewrite existsb_app in Hzoom. cbn in Hzoom.
      now rewrite orb_false_r in Hzoom.
    + discriminate Hc.
    + unfold emitZoom in Hw. rewrite Hb in Hw. cbn in Hw.
      inversion Hw; subst w. unfold within. cbn. lia.
    + discriminate Hw.
Qed.

Lemma zoom_within_bounds_through_session_witness :
  exists w,
    getCurrentZoom
      (run (setDataBounds (mkTimeRange 10 20) init)
           [EmitZoom (mkTimeRange 0 12); EmitHover None; ClearZoom;
            EmitZoom (mkTimeRange 15 99); EmitHover None]) = Some w /\
    within w (mkTimeRange 10 20).
Proof.
  eexists. split; [reflexivity|].
  apply (zoom_within_bounds_through_session init (mkTimeRange 10 20)
           [EmitZoom (mkTimeRange 0 12); EmitHover None; ClearZoom;
            EmitZoom (mkTimeRange 15 99); EmitHover None]);
    reflexivity.
Defined.

End SyncSessionFacts.

(** ** Data bounds, zooming out and the selected fields *)

Section AppFacts.
Import DataModel SyncService AppComponent FieldSelectorComponent Spec.



Section Bounds.

Context {DataPoint : Type}.
Variable datetime : DataPoint -> Z.




End Bounds.


End AppFacts.




Section FieldFacts.
Import DataModel CsvService AppComponent FieldSelectorComponent.

Lemma existsb_eqb_In (k : string) (keys : list string) :
  existsb (String.eqb k) keys = true <-> In k keys.
Proof.
  rewrite existsb_exists. split.
  - intros (y & Hy & Heq). apply String.eqb_eq in Heq. now subst.
  - intros H. exists k. split; [exact H|apply String.eqb_refl].
Qed.

(** X8.  Removing a field leaves no selected field with its key; removing a
    field right after selecting it undoes the selection when no field
    with that key was selected before. *)
Theorem onFieldRemoved_undoes_onFieldSelected (field : PlotField)
    (selectedFields : list PlotField) :
  (forall f, In f (onFieldRemoved field selectedFields) -> key f <> key field) /\
  onFieldRemoved field (onFieldSelected field selectedFields) =
    onFieldRemoved field selectedFields /\
  ((forall f, In f selectedFields -> key f <> key field) ->
   onFieldRemoved field (onFieldSelected field selectedFields) = selectedFields).
Proof.
  assert (Hsame : onFieldRemoved field (onFieldSelected field selectedFields) =
                  onFieldRemoved field selectedFields).
  { unfold onFieldRemoved, onFieldSelected. rewrite filter_app. cbn.
    rewrite String.eqb_refl. cbn. apply app_nil_r. }
  split; [|split].
  - intros f Hf. unfold onFieldRemoved in Hf. apply filter_In in Hf as [_ Hk].
    apply negb_true_iff in Hk. now apply String.eqb_neq.
  - exact Hsame.
  - intros Hnew. rewrite Hsame. unfold onFieldRemoved. apply filter_all.
    intros f Hf. apply negb_true_iff. apply String.eqb_neq. now apply Hnew.
Qed.

(** X9.  The fields offered for selection are the available fields whose key
    no selected field has.  A field just selected is no longer offered,
    and an available field that is removed is offered again. *)
Theorem unselectedFields_complement (availableFields selectedFields : list PlotField) :
  (forall f, In f (unselectedFields availableFields selectedFields) <->
             In f availableFields /\ ~ In (key f) (map key selectedFields)) /\
  (forall field,
      ~ In field (unselectedFields availableFields
                    (onFieldSelected field selectedFields))) /\
  (forall field, In field availableFields ->
      In field (unselectedFields availableFields
                  (onFieldRemoved field selectedFields))).
Proof.
  assert (Hchar : forall avail sel f,
             In f (unselectedFields avail sel) <->
             In f avail /\ ~ In (key f) (map key sel)).
  { intros avail sel f. unfold unselectedFields. rewrite filter_In.
    rewrite negb_true_iff, <- not_true_iff_false, existsb_eqb_In. reflexivity. }
  split; [apply Hchar|split].
  - intros field Hin. apply Hchar in Hin as [_ Hkey]. apply Hkey.
    unfold onFieldSelected. rewrite map_app. apply in_or_app. right. now left.
  - intros field Hin. apply Hchar. split; [exact Hin|].
    intros Hkey. apply in_map_iff in Hkey as (f & Hf & Hfin).
    unfold onFieldRemoved in Hfin. apply filter_In in Hfin as [_ Hne].
    apply negb_true_iff, String.eqb_neq in Hne. now apply Hne.
Qed.

Lemma filter_index_below {A} (k : nat) (l : list A) : forall a,
  filter (fun p : nat * A => fst p <? k) (combine (seq a (List.length l)) l) =
  firstn (k - a) (combine (seq a (List.length l)) l).
Proof.
  induction l as [|x l IH]; intros a; cbn [List.length seq combine filter].
  - now rewrite firstn_nil.
  - cbn [fst]. destruct (a <? k) eqn:Hak.
    + apply Nat.ltb_lt in Hak. rewrite IH.
      replace (k - a) with (S (k - S a)) by lia. reflexivity.
    + apply Nat.ltb_ge in Hak. replace (k - a) with 0 by lia. cbn.
      rewrite IH. now replace (k - S a) with 0 by lia.
Qed.

Lemma filter_selected_indexed {A} (F : nat * A -> PlotField) (k : nat) (l : list A) :
  (forall p, selected (F p) = (fst p <? k)) ->
  filter selected (map F (indexed l)) = firstn k (map F (indexed l)).
Proof.
  intros HF. unfold indexed.
  rewrite firstn_map. rewrite <- (Nat.sub_0_r k) at 1.
  rewrite <- filter_index_below.
  induction (combine (seq 0 (List.length l)) l) as [|p ps IH]; [reflexivity|].
  cbn [map filter]. rewrite HF, IH. destruct (fst p <? k); reflexivity.
Qed.

(** X10.  After a load the fields selected to start with are the first two
    numeric plot fields and the first categorical one, as many as there
    are: never more than three. *)
Theorem initial_selection_at_most_three (csvText : string) :
  exists r,
    parseCsv csvText = Return r /\
    onAvailableFields (fields r) =
      firstn 2 (numericPlotFields (metadata r)) ++
      firstn 1 (categoricalPlotFields (metadata r)) /\
    List.length (onAvailableFields (fields r)) <= 3.
Proof.
  destruct (parseCsv_returns csvText) as [r Hr]. exists r. split; [exact Hr|].
  assert (Hf : fields r = numericPlotFields (metadata r) ++
                          categoricalPlotFields (metadata r)).
  { unfold parseCsv in Hr.
    destruct (nth_error (JS.split "010"%char (JS.trim csvText)) 0);
      inversion Hr; reflexivity. }
  assert (Hsel : onAvailableFields (fields r) =
                 firstn 2 (numericPlotFields (metadata r)) ++
                 firstn 1 (categoricalPlotFields (metadata r))).
  { unfold onAvailableFields. rewrite Hf, filter_app. f_equal.
    - unfold numericPlotFields. apply filter_selected_indexed.
      intros [i k]. reflexivity.
    - unfold categoricalPlotFields. apply filter_selected_indexed.
      intros [i k]. reflexivity. }
  split; [exact Hsel|].
  rewrite Hsel, length_app.
  pose proof (firstn_le_length 2 (numericPlotFields (metadata r))).
  pose proof (firstn_le_length 1 (categoricalPlotFields (metadata r))).
  rewrite !length_firstn. lia.
Qed.

End FieldFacts.

Lemma onFieldRemoved_undoes_onFieldSelected_witness :
  let temp := DataModel.mkPlotField "temp" "Temp" false "#1f77b4" DataModel.DTnumber in
  let status := DataModel.mkPlotField "status" "Status" true "#ff7f0e" DataModel.DTstring in
  AppComponent.onFieldRemoved temp (AppComponent.onFieldSelected temp [status]) =
  [status].
Proof.
  cbv zeta.
  apply (proj2 (proj2 (onFieldRemoved_undoes_onFieldSelected
     (DataModel.mkPlotField "temp" "Temp" false "#1f77b4" DataModel.DTnumber)
     [DataModel.mkPlotField "status" "Status" true "#ff7f0e" DataModel.DTstring]))).
  intros f [<-|[]]. discriminate.
Defined.

Lemma unselectedFields_complement_witness :
  let temp := DataModel.mkPlotField "temp" "Temp" false "#1f77b4" DataModel.DTnumber in
  let status := DataModel.mkPlotField "status" "Status" true "#ff7f0e" DataModel.DTstring in
  In temp (FieldSelectorComponent.unselectedFields [temp; status]
             (AppComponent.onFieldRemoved temp [status; temp])).
Proof.
  cbv zeta.
  apply (proj2 (proj2 (unselectedFields_complement
     [DataModel.mkPlotField "temp" "Temp" false "#1f77b4" DataModel.DTnumber;
      DataModel.mkPlotField "status" "Status" true "#ff7f0e" DataModel.DTstring]
     [DataModel.mkPlotField "status" "Status" true "#ff7f0e" DataModel.DTstring;
      DataModel.mkPlotField "temp" "Temp" false "#1f77b4" DataModel.DTnumber]))).
  now left.
Defined.

(** ** The special columns *)

Section SpecialColumnFacts.
Import JS DataModel CsvService Spec.

(** A header that takes one of the three special branches is not empty,
    and the field of that branch was not set before. *)
Lemma headerRole_special dataLines st index header :
  let r := headerRole dataLines st index header in
  (r = Datetime ->
   truthy (a_dateTimeField st) = false /\ looksLikeDate header = true) /\
  (r = Latitude -> truthy (a_latitudeField st) = false) /\
  (r = Longitude -> truthy (a_longitudeField st) = false) /\
  (r = Datetime \/ r = Latitude \/ r = Longitude -> truthy (Some header) = true) /\
  (truthy (a_dateTimeField st) = false -> looksLikeDate header = true ->
   r = Datetime).
Proof.
  cbv zeta. unfold headerRole, looksLikeDate.
  destruct header as [|c header].
  - cbn. rewrite !andb_false_r.
    destruct (isNumericField index dataLines);
      repeat split; intros; try discriminate;
      repeat match goal with H : _ \/ _ |- _ => destruct H end; discriminate.
  - set (lowerHeader := toLowerCase (String c header)).
    destruct (truthy (a_dateTimeField st)),
             (includes "date" lowerHeader || includes "time" lowerHeader),
             (truthy (a_latitudeField st)),
             (includes "lat" lowerHeader || String.eqb lowerHeader "y"),
             (truthy (a_longitudeField st)),
             (includes "lon" lowerHeader || includes "lng" lowerHeader ||
              String.eqb lowerHeader "x"),
             (isNumericField index dataLines); cbn;
      repeat split; intros; try reflexivity; try discriminate.
Qed.

Lemma analyzeHeader_fields dataLines st index header :
  let r := headerRole dataLines st index header in
  let st' := analyzeHeader dataLines st (index, header) in
  a_dateTimeField st' = (if isRole Datetime (header, r) then Some header
                         else a_dateTimeField st) /\
  a_latitudeField st' = (if isRole Latitude (header, r) then Some header
                         else a_latitudeField st) /\
  a_longitudeField st' = (if isRole Longitude (header, r) then Some header
                          else a_longitudeField st).
Proof.
  cbv zeta. unfold analyzeHeader, isRole. cbn [snd].
  destruct (headerRole dataLines st index header); cbn; repeat split.
Qed.

(** Each special field, when the analysis ends, names the one column that
    took its role, and no column took the role if it is unset. *)
Lemma special_columns_fold dataLines ihs : forall st,
  let st' := fold_left (analyzeHeader dataLines) ihs st in
  let roles := rolesFrom dataLines st ihs in
  let hs := map snd ihs in
  (if truthy (a_dateTimeField st)
   then columnsWithRole Datetime hs roles = [] /\
        a_dateTimeField st' = a_dateTimeField st
   else columnsWithRole Datetime hs roles = fieldList (find looksLikeDate hs) /\
        a_dateTimeField st' =
          match find looksLikeDate hs with
          | Some h => Some h
          | None => a_dateTimeField st
          end) /\
  (if truthy (a_latitudeField st)
   then columnsWithRole Latitude hs roles = [] /\
        a_latitudeField st' = a_latitudeField st
   else (columnsWithRole Latitude hs roles = [] /\
         a_latitudeField st' = a_latitudeField st) \/
        exists h, columnsWithRole Latitude hs roles = [h] /\
                  a_latitudeField st' = Some h) /\
  (if truthy (a_longitudeField st)
   then columnsWithRole Longitude hs roles = [] /\
        a_longitudeField st' = a_longitudeField st
   else (columnsWithRole Longitude hs roles = [] /\
         a_longitudeField st' = a_longitudeField st) \/
        exists h, columnsWithRole Longitude hs roles = [h] /\
                  a_longitudeField st' = Some h).
Proof.
  induction ihs as [|[index header] ihs IH]; intros st.
  - cbn. destruct (truthy (a_dateTimeField st)),
      (truthy (a_latitudeField st)), (truthy (a_longitudeField st)); auto 6.
  - cbv zeta. cbn [fold_left rolesFrom map snd].
    specialize (IH (analyzeHeader dataLines st (index, header))).
    cbv zeta in IH.
    destruct (analyzeHeader_fields dataLines st index header) as (Fd & Fla & Flo).
    destruct (headerRole_special dataLines st index header)
      as (Sd & Sla & Slo & Sne & Sfirst).
    cbv zeta in Fd, Fla, Flo, Sd, Sla, Slo, Sne, Sfirst.
    set (st1 := analyzeHeader dataLines st (index, header)) in *.
    set (r := headerRole dataLines st index header) in *.
    set (tl_roles := rolesFrom dataLines st1 ihs) in *.
    unfold columnsWithRole in *. cbn [combine filter map fst].
    destruct IH as (IHd & IHla & IHlo).
    split; [|split].
    + cbn [find]. destruct (truthy (a_dateTimeField st)) eqn:Td.
      * assert (isRole Datetime (header, r) = false) as Er.
        { destruct r eqn:Hr; try reflexivity.
          destruct (Sd eq_refl); discriminate. }
        rewrite Er in *. rewrite Fd in IHd. rewrite Td in IHd. exact IHd.
      * destruct (looksLikeDate header) eqn:Ld.
        -- rewrite (Sfirst eq_refl eq_refl) in *. cbn [isRole snd] in *.
           rewrite Fd in IHd. rewrite (Sne (or_introl eq_refl)) in IHd.
           destruct IHd as [E1 E2]. cbn [map fst]. rewrite E1, E2.
           split; reflexivity.
        -- assert (isRole Datetime (header, r) = false) as Er.
           { destruct r eqn:Hr; try reflexivity.
             destruct (Sd eq_refl); discriminate. }
           rewrite Er in *. rewrite Fd in IHd. rewrite Td in IHd. exact IHd.
    + destruct (isRole Latitude (header, r)) eqn:Er.
      * assert (r = Latitude) as Hr by (destruct r; cbn in Er; congruence).
        rewrite (Sla Hr). rewrite Fla in IHla.
        rewrite (Sne (or_intror (or_introl Hr))) in IHla.
        destruct IHla as [E1 E2]. cbn [map fst]. rewrite E1, E2.
        right. exists header. split; reflexivity.
      * rewrite Fla in IHla. exact IHla.
    + destruct (isRole Longitude (header, r)) eqn:Er.
      * assert (r = Longitude) as Hr by (destruct r; cbn in Er; congruence).
        rewrite (Slo Hr). rewrite Flo in IHlo.
        rewrite (Sne (or_intror (or_intror Hr))) in IHlo.
        destruct IHlo as [E1 E2]. cbn [map fst]. rewrite E1, E2.
        right. exists header. split; reflexivity.
      * rewrite Flo in IHlo. exact IHlo.
Qed.

Lemma length_rolesFrom dataLines ihs : forall st,
  List.length (rolesFrom dataLines st ihs) = List.length ihs.
Proof.
  induction ihs as [|[index header] ihs IH]; intros st; [reflexivity|].
  cbn. now rewrite IH.
Qed.

(** X11.  Every column receives a role; at most one column receives each of the
    datetime, latitude and longitude roles, and the metadata field of the
    role names exactly that column; the datetime column is the first
    header that looks like a date. *)
Theorem special_columns_are_unique (hs dataLines : list string) :
  let md := analyzeHeaders hs dataLines in
  let roles := columnRoles hs dataLines in
  List.length roles = List.length hs /\
  dateTimeField md = find looksLikeDate hs /\
  columnsWithRole Datetime hs roles = fieldList (dateTimeField md) /\
  columnsWithRole Latitude hs roles = fieldList (latitudeField md) /\
  columnsWithRole Longitude hs roles = fieldList (longitudeField md).
Proof.
  cbv zeta. unfold columnRoles.
  split; [rewrite length_rolesFrom; apply length_indexed|].
  destruct (special_columns_fold dataLines (indexed hs) initialAnalysis)
    as (Hd & Hla & Hlo).
  cbv zeta in Hd, Hla, Hlo. rewrite map_snd_indexed in Hd, Hla, Hlo.
  cbn [initialAnalysis a_dateTimeField a_latitudeField a_longitudeField truthy]
    in Hd, Hla, Hlo.
  change (a_dateTimeField (fold_left (analyzeHeader dataLines) (indexed hs) initialAnalysis))
    with (dateTimeField (analyzeHeaders hs dataLines)) in Hd.
  change (a_latitudeField (fold_left (analyzeHeader dataLines) (indexed hs) initialAnalysis))
    with (latitudeField (analyzeHeaders hs dataLines)) in Hla.
  change (a_longitudeField (fold_left (analyzeHeader dataLines) (indexed hs) initialAnalysis))
    with (longitudeField (analyzeHeaders hs dataLines)) in Hlo.
  destruct Hd as [Hd1 Hd2].
  assert (Hdt : dateTimeField (analyzeHeaders hs dataLines) = find looksLikeDate hs)
    by (rewrite Hd2; destruct (find looksLikeDate hs); reflexivity).
  split; [exact Hdt|]. split; [now rewrite Hdt|].
  split.
  - destruct Hla as [[-> ->]|(h & -> & ->)]; reflexivity.
  - destruct Hlo as [[-> ->]|(h & -> & ->)]; reflexivity.
Qed.

End SpecialColumnFacts.

(** ** Rows and cells *)

Section CellFacts.
Import JS DataModel CsvService Spec.

Lemma headerRole_numeric dataLines st index header :
  headerRole dataLines st index header = Numeric ->
  isNumericField index dataLines = true.
Proof.
  unfold headerRole.
  repeat match goal with
         | |- context [if ?c then _ else _] =>
             lazymatch c with
             | isNumericField _ _ => fail
             | _ => destruct c
             end
         end; try discriminate.
  destruct (isNumericField index dataLines); [reflexivity|discriminate].
Qed.

Lemma no_numeric_role_without_data ihs : forall st,
  ~ In Numeric (rolesFrom [] st ihs).
Proof.
  induction ihs as [|[index header] ihs IH]; intros st; [intros []|].
  cbn [rolesFrom]. intros [H|H].
  - apply headerRole_numeric in H. discriminate H.
  - exact (IH _ H).
Qed.

Lemma columnsWithRole_absent r hs roles :
  ~ In r roles -> columnsWithRole r hs roles = [].
Proof.
  intros Hnot. unfold columnsWithRole.
  replace (filter (isRole r) (combine hs roles)) with (@nil (string * Role));
    [reflexivity|].
  symmetry. induction (combine hs roles) as [|[h r'] l IH] eqn:E in hs, roles, Hnot |- *;
    [reflexivity|].
  destruct hs as [|h0 hs], roles as [|r0 roles]; try discriminate.
  cbn in E. inversion E; subst. cbn [filter].
  assert (isRole r (h, r') = false) as ->.
  { destruct r, r'; try reflexivity; exfalso; apply Hnot; now left. }
  apply (IH hs roles); [|reflexivity]. intros H. apply Hnot. now right.
Qed.

(** X12.  A text with a header line only gives no record, no numeric field,
    and plot fields that are all categorical. *)
Theorem header_only_fields_categorical (csvText : string) :
  dataLinesOf csvText = [] ->
  exists r,
    parseCsv csvText = Return r /\
    data r = [] /\
    numericFields (metadata r) = [] /\
    forall f, In f (fields r) -> dataType f = DTstring.
Proof.
  unfold dataLinesOf, parseCsv. intros Hdl.
  destruct (split "010"%char (trim csvText)) as [|line0 rest] eqn:Hs.
  { elim (split_not_nil _ _ Hs). }
  cbn [nth_error]. rewrite Hdl. eexists. split; [reflexivity|].
  cbn [data metadata fields map].
  set (hs := map trim (split "," line0)).
  destruct (analyzeHeaders_columns hs []) as (_ & Hn & _). cbv zeta in Hn.
  assert (Hnum : numericFields (analyzeHeaders hs []) = []).
  { rewrite Hn. apply columnsWithRole_absent. apply no_numeric_role_without_data. }
  split; [reflexivity|]. split; [exact Hnum|].
  intros f Hf. apply in_app_or in Hf as [Hf|Hf].
  - unfold numericPlotFields in Hf. rewrite Hnum in Hf. now elim Hf.
  - unfold categoricalPlotFields in Hf. apply in_map_iff in Hf as ([i k] & <- & _).
    reflexivity.
Qed.

Lemma header_only_fields_categorical_witness :
  exists r,
    parseCsv "time, temp ,status" = Return r /\
    data r = [] /\
    numericFields (metadata r) = [] /\
    forall f, In f (fields r) -> dataType f = DTstring.
Proof.
  apply (header_only_fields_categorical "time, temp ,status").
  reflexivity.
Defined.







End CellFacts.


(** ** Field labels *)

Section LabelFacts.
Import JS CsvService Spec.

Ltac each_char c :=
  destruct c as [[] [] [] [] [] [] [] []]; reflexivity.

Lemma upperChar_idem c : upperChar (upperChar c) = upperChar c.
Proof. each_char c. Qed.

Lemma isWordChar_upperChar c : isWordChar (upperChar c) = isWordChar c.
Proof. each_char c. Qed.

Lemma isLowerAZ_upperChar c : isLowerAZ (upperChar c) = false.
Proof. each_char c. Qed.

Lemma isUpperAZ_upperChar c :
  isUpperAZ (upperChar c) = isUpperAZ c || isLowerAZ c.
Proof. each_char c. Qed.

Lemma isWordChar_lower c : isLowerAZ c = true -> isWordChar c = true.
Proof. unfold isWordChar. now intros ->. Qed.

Lemma isLowerAZ_upper c : isUpperAZ c = true -> isLowerAZ c = false.
Proof.
  destruct c as [[] [] [] [] [] [] [] []]; intros H; try reflexivity;
    discriminate H.
Qed.

Lemma underscore_upperChar c :
  Ascii.eqb (upperChar c) "_"%char = Ascii.eqb c "_"%char.
Proof. each_char c. Qed.

(** One step of the camel-case split. *)
Lemma splitCamelCase_step a s :
  splitCamelCase (String a s) =
  String a (if isLowerAZ a && startsUpper s
            then String " "%char (splitCamelCase s)
            else splitCamelCase s).
Proof.
  destruct s as [|b r]; cbn [splitCamelCase startsUpper].
  - now rewrite andb_false_r.
  - destruct (isLowerAZ a && isUpperAZ b) eqn:Hpair; [|reflexivity].
    apply andb_prop in Hpair as [_ Hb]. apply isLowerAZ_upper in Hb.
    f_equal. f_equal.
    destruct r as [|c r']; cbn [splitCamelCase]; [reflexivity|].
    now rewrite Hb.
Qed.

Lemma startsUpper_splitCamelCase s :
  startsUpper (splitCamelCase s) = startsUpper s.
Proof. destruct s; [reflexivity|]. now rewrite splitCamelCase_step. Qed.

Lemma underscoresToSpaces_clean s : hasNoUnderscore (underscoresToSpaces s) = true.
Proof.
  unfold underscoresToSpaces.
  induction s as [|c s IH]; [reflexivity|].
  cbn [mapChars hasNoUnderscore]. rewrite IH, andb_true_r.
  destruct (Ascii.eqb c "_"%char) eqn:E; [reflexivity|]. now rewrite E.
Qed.

Lemma underscoresToSpaces_id s :
  hasNoUnderscore s = true -> underscoresToSpaces s = s.
Proof.
  unfold underscoresToSpaces.
  induction s as [|c s IH]; [reflexivity|].
  cbn [mapChars hasNoUnderscore]. intros H.
  apply andb_prop in H as [Hc Hs]. apply negb_true_iff in Hc.
  rewrite Hc. f_equal. now apply IH.
Qed.

Lemma splitCamelCase_clean s :
  hasNoUnderscore s = true -> hasNoUnderscore (splitCamelCase s) = true.
Proof.
  induction s as [|c s IH]; [reflexivity|]. intros H.
  cbn [hasNoUnderscore] in H. apply andb_prop in H as [Hc Hs].
  rewrite splitCamelCase_step. cbn [hasNoUnderscore]. rewrite Hc.
  destruct (isLowerAZ c && startsUpper s); cbn; now apply IH.
Qed.

Lemma splitCamelCase_splits s : hasNoCamelPair (splitCamelCase s) = true.
Proof.
  induction s as [|c s IH]; [reflexivity|].
  rewrite splitCamelCase_step.
  destruct (isLowerAZ c && startsUpper s) eqn:Hpair.
  - cbn. rewrite andb_false_r. cbn. exact IH.
  - cbn [hasNoCamelPair]. rewrite startsUpper_splitCamelCase, Hpair. exact IH.
Qed.

Lemma splitCamelCase_id s :
  hasNoCamelPair s = true -> splitCamelCase s = s.
Proof.
  induction s as [|c s IH]; [reflexivity|]. intros H.
  cbn [hasNoCamelPair] in H. apply andb_prop in H as [Hc Hs].
  apply negb_true_iff in Hc. rewrite splitCamelCase_step, Hc.
  f_equal. now apply IH.
Qed.

Lemma capitalizeWords_clean s : forall afterWord,
  hasNoUnderscore s = true ->
  hasNoUnderscore (capitalizeWords afterWord s) = true.
Proof.
  induction s as [|c s IH]; intros afterWord H; [reflexivity|].
  cbn in *. apply andb_prop in H as [Hc Hs]. rewrite IH by exact Hs.
  rewrite andb_true_r.
  destruct (isWordChar c && negb afterWord);
    [now rewrite underscore_upperChar|exact Hc].
Qed.

Lemma startsUpper_capitalizeWords s afterWord :
  afterWord = true ->
  startsUpper (capitalizeWords afterWord s) = startsUpper s.
Proof.
  intros ->. destruct s; [reflexivity|]. cbn. now rewrite andb_false_r.
Qed.

Lemma capitalizeWords_no_pair s : forall afterWord,
  hasNoCamelPair s = true ->
  hasNoCamelPair (capitalizeWords afterWord s) = true.
Proof.
  induction s as [|c s IH]; intros afterWord H; [reflexivity|].
  cbn [hasNoCamelPair capitalizeWords] in *.
  apply andb_prop in H as [Hc Hs]. rewrite IH by exact Hs.
  rewrite andb_true_r.
  destruct (isWordChar c && negb afterWord).
  - now rewrite isLowerAZ_upperChar.
  - destruct (isLowerAZ c) eqn:Hl; [|reflexivity].
    rewrite startsUpper_capitalizeWords by now apply isWordChar_lower.
    exact Hc.
Qed.

Lemma capitalizeWords_idem s : forall afterWord,
  capitalizeWords afterWord (capitalizeWords afterWord s) =
  capitalizeWords afterWord s.
Proof.
  induction s as [|c s IH]; intros afterWord; [reflexivity|].
  cbn [capitalizeWords].
  destruct (isWordChar c && negb afterWord) eqn:Hcap.
  - rewrite isWordChar_upperChar, Hcap, upperChar_idem, IH. reflexivity.
  - rewrite Hcap, IH. reflexivity.
Qed.

(** X14.  Formatting a label that is already formatted changes nothing, and a
    formatted label holds no underscore. *)
Theorem formatFieldLabel_idempotent (fieldName : string) :
  formatFieldLabel (formatFieldLabel fieldName) = formatFieldLabel fieldName /\
  hasNoUnderscore (formatFieldLabel fieldName) = true.
Proof.
  unfold formatFieldLabel.
  set (t := splitCamelCase (underscoresToSpaces fieldName)).
  assert (Ht1 : hasNoUnderscore t = true)
    by (apply splitCamelCase_clean, underscoresToSpaces_clean).
  assert (Ht2 : hasNoCamelPair t = true) by apply splitCamelCase_splits.
  assert (Hu1 : hasNoUnderscore (capitalizeWords false t) = true)
    by now apply capitalizeWords_clean.
  assert (Hu2 : hasNoCamelPair (capitalizeWords false t) = true)
    by now apply capitalizeWords_no_pair.
  split; [|exact Hu1].
  rewrite underscoresToSpaces_id by exact Hu1.
  rewrite splitCamelCase_id by exact Hu2.
  apply capitalizeWords_idem.
Qed.

End LabelFacts.

(** ** The record under the cursor *)

Section ClosestFacts.
Import StateChartComponent Spec.

Context {DataPoint : Type}.
Variable datetime : DataPoint -> Z.

(** The search stays between its two indices, on any array. *)
Lemma bisectLeft_range (a : list DataPoint) (x : Z) (lo hi : nat) :
  lo <= hi -> lo <= bisectLeft datetime a x lo hi <= hi.
Proof.
  funelim (bisectLeft datetime a x lo hi); intros Hlohi.
  - lia.
  - lia.
  - match goal with IH : _ -> _ <= bisectLeft _ _ _ _ _ <= _ |- _ =>
      pose proof (Nat.div_mod_eq (lo + hi) 2);
      pose proof (Nat.mod_upper_bound (lo + hi) 2);
      assert ((lo + hi) / 2 + 1 <= hi) as Hm by lia; specialize (IH Hm); lia
    end.
  - match goal with IH : _ -> _ <= bisectLeft _ _ _ _ _ <= _ |- _ =>
      pose proof (Nat.div_mod_eq (lo + hi) 2);
      pose proof (Nat.mod_upper_bound (lo + hi) 2);
      assert (lo <= (lo + hi) / 2) as Hm by lia; specialize (IH Hm); lia
    end.
Qed.

(** X15.  The lookup finds nothing on an empty array and otherwise returns one
    of the records, whether or not the records are in time order. *)
Theorem closestPoint_returns_a_record (data : list DataPoint) (date : Z) :
  (data = [] -> closestPoint datetime data date = None) /\
  (data <> [] ->
   exists d, closestPoint datetime data date = Some d /\ In d data).
Proof.
  split.
  - intros ->. reflexivity.
  - intros Hne.
    assert (Hlen : 0 < List.length data) by (destruct data; [now elim Hne|cbn; lia]).
    pose proof (bisectLeft_range data date 0 (List.length data) ltac:(lia)) as Hr.
    destruct (closestPoint_cases datetime data date) as (H0 & Hend & Hmid).
    cbv zeta in H0, Hend, Hmid.
    set (index := bisectLeft datetime data date 0 (List.length data)) in *.
    destruct (Nat.eq_dec index 0) as [E0|N0].
    + rewrite (H0 E0).
      destruct (nth_error data 0) as [d|] eqn:Hd;
        [|apply nth_error_None in Hd; lia].
      exists d. split; [reflexivity|]. eapply nth_error_In; eauto.
    + destruct (Nat.eq_dec index (List.length data)) as [El|Nl].
      * rewrite (Hend N0 El).
        destruct (nth_error data (List.length data - 1)) as [d|] eqn:Hd;
          [|apply nth_error_None in Hd; lia].
        exists d. split; [reflexivity|]. eapply nth_error_In; eauto.
      * destruct Hmid as (l & r & Hl & Hrr & Hright & Hleft); [lia|].
        destruct (Z_lt_le_dec (datetime r - date) (date - datetime l)) as [Hc|Hc].
        -- exists r. split; [now apply Hright|]. eapply nth_error_In; eauto.
        -- exists l. split; [now apply Hleft|]. eapply nth_error_In; eauto.
Qed.

(** X16.  On records in ascending time order the record returned is a nearest
    one: no record is closer in time to the query. *)
Theorem closestPoint_is_nearest (data : list DataPoint) (date : Z) :
  Sorted Z.le (map datetime data) ->
  data <> [] ->
  exists d,
    closestPoint datetime data date = Some d /\
    In d data /\
    forall d', In d' data ->
      (Z.abs (date - datetime d) <= Z.abs (date - datetime d'))%Z.
Proof.
  intros Hs Hne.
  assert (Hlen : 0 < List.length data) by (destruct data; [now elim Hne|cbn; lia]).
  pose proof (bisectLeft_lowerBound datetime data date Hs) as (Hle & Hbelow & Habove).
  rewrite length_map in Hle.
  destruct (closestPoint_cases datetime data date) as (H0 & Hend & Hmid).
  cbv zeta in H0, Hend, Hmid.
  set (index := bisectLeft datetime data date 0 (List.length data)) in *.
  assert (Hpos : forall j d', nth_error data j = Some d' ->
             (j < index -> (datetime d' < date)%Z) /\
             (index <= j -> (date <= datetime d')%Z)).
  { intros j d' Hj. split; intros Hji.
    - apply (Hbelow j); [exact Hji|]. now rewrite nth_error_datetime, Hj.
    - apply (Habove j); [exact Hji|]. now rewrite nth_error_datetime, Hj. }
  assert (Hord : forall j k dj dk, j <= k ->
             nth_error data j = Some dj -> nth_error data k = Some dk ->
             (datetime dj <= datetime dk)%Z).
  { intros j k dj dk Hjk Hj Hk.
    apply (ascending_nth _ Hs j k); [exact Hjk| |];
      rewrite nth_error_datetime; [now rewrite Hj|now rewrite Hk]. }
  destruct (Nat.eq_dec index 0) as [E0|N0].
  - rewrite (H0 E0).
    destruct (nth_error data 0) as [d|] eqn:Hd;
      [|apply nth_error_None in Hd; lia].
    exists d. split; [reflexivity|]. split; [eapply nth_error_In; eauto|].
    intros d' Hd'. apply In_nth_error in Hd' as [j Hj].
    pose proof (proj2 (Hpos 0 d Hd) ltac:(lia)).
    pose proof (Hord 0 j d d' ltac:(lia) Hd Hj). lia.
  - destruct (Nat.eq_dec index (List.length data)) as [El|Nl].
    + rewrite (Hend N0 El).
      destruct (nth_error data (List.length data - 1)) as [d|] eqn:Hd;
        [|apply nth_error_None in Hd; lia].
      exists d. split; [reflexivity|]. split; [eapply nth_error_In; eauto|].
      intros d' Hd'. apply In_nth_error in Hd' as [j Hj].
      assert (j < List.length data) by (apply nth_error_Some; congruence).
      pose proof (proj1 (Hpos _ d Hd) ltac:(lia)).
      pose proof (Hord j (List.length data - 1) d' d ltac:(lia) Hj Hd). lia.
    + destruct Hmid as (l & r & Hl & Hr & Hright & Hleft); [lia|].
      pose proof (proj1 (Hpos _ l Hl) ltac:(lia)) as Hlt.
      pose proof (proj2 (Hpos _ r Hr) ltac:(lia)) as Hge.
      assert (Hfar : forall d', In d' data ->
                (date - datetime l <= Z.abs (date - datetime d'))%Z \/
                (datetime r - date <= Z.abs (date - datetime d'))%Z).
      { intros d' Hd'. apply In_nth_error in Hd' as [j Hj].
        destruct (Nat.lt_ge_cases j index) as [Hji|Hji].
        - left. pose proof (Hord j (index - 1) d' l ltac:(lia) Hj Hl). lia.
        - right. pose proof (Hord index j r d' Hji Hr Hj). lia. }
      destruct (Z_lt_le_dec (datetime r - date) (date - datetime l)) as [Hc|Hc].
      * exists r. split; [now apply Hright|].
        split; [eapply nth_error_In; eauto|].
        intros d' Hd'. destruct (Hfar d' Hd'); lia.
      * exists l. split; [now apply Hleft|].
        split; [eapply nth_error_In; eauto|].
        intros d' Hd'. destruct (Hfar d' Hd'); lia.
Qed.

End ClosestFacts.

Lemma closestPoint_returns_a_record_witness :
  exists d,
    StateChartComponent.closestPoint (fun t : Z => t) [30; 10; 20]%Z 12%Z = Some d /\
    In d [30; 10; 20]%Z.
Proof.
  apply (proj2 (closestPoint_returns_a_record (fun t : Z => t) [30; 10; 20]%Z 12%Z)).
  discriminate.
Defined.

Lemma closestPoint_is_nearest_witness :
  exists d,
    StateChartComponent.closestPoint (fun t : Z => t) [0; 10; 30]%Z 21%Z = Some d /\
    In d [0; 10; 30]%Z /\
    forall d', In d' [0; 10; 30]%Z -> (Z.abs (21 - d) <= Z.abs (21 - d'))%Z.
Proof.
  apply (closestPoint_is_nearest (fun t : Z => t) [0; 10; 30]%Z 21%Z).
  - cbn. repeat constructor; lia.
  - discriminate.
Defined.

(** ** What decimation keeps *)

Section ThinningFacts.
Import DataModel ChartComponent Spec.

Context {DataPoint : Type}.
Variable sameObject : forall a b : DataPoint, {a = b} + {a <> b}.

Lemma Subseq_refl (l : list DataPoint) : Subseq l l.
Proof. induction l; constructor; assumption. Qed.

Lemma Subseq_nil_l (l : list DataPoint) : Subseq [] l.
Proof. induction l; constructor; assumption. Qed.

Lemma Subseq_In (l1 l2 : list DataPoint) :
  Subseq l1 l2 -> forall d, In d l1 -> In d l2.
Proof.
  induction 1 as [|x l1 l2 _ IH|x l1 l2 _ IH]; intros d Hd.
  - exact Hd.
  - destruct Hd as [->|Hd]; [now left|right; now apply IH].
  - right. now apply IH.
Qed.

Lemma Subseq_trans (l1 l2 l3 : list DataPoint) :
  Subseq l1 l2 -> Subseq l2 l3 -> Subseq l1 l3.
Proof.
  intros H12 H23. revert l1 H12.
  induction H23 as [|x l2 l3 _ IH|x l2 l3 _ IH]; intros l1 H12.
  - exact H12.
  - inversion H12; subst; constructor; now apply IH.
  - constructor. now apply IH.
Qed.

Lemma Subseq_filter (p : DataPoint -> bool) (l : list DataPoint) :
  Subseq (filter p l) l.
Proof.
  induction l as [|x l IH]; [constructor|].
  cbn. destruct (p x); constructor; exact IH.
Qed.

Lemma pick_shift (a : DataPoint) (data : list DataPoint) (indices : list nat) :
  Forall (fun i => 0 < i) indices ->
  pick (a :: data) indices = pick data (map pred indices).
Proof.
  induction 1 as [|i indices Hi _ IH]; [reflexivity|].
  unfold pick in *. cbn [flat_map map]. rewrite IH.
  destruct i; [lia|]. reflexivity.
Qed.

Lemma pred_increasing (indices : list nat) :
  StronglySorted lt indices -> Forall (fun i => 0 < i) indices ->
  StronglySorted lt (map pred indices).
Proof.
  induction 1 as [|i indices Hs IH Hi]; intros Hpos; [constructor|].
  inversion Hpos as [|? ? Hi0 Hpos']; subst.
  cbn. constructor; [now apply IH|].
  apply Forall_forall. intros j Hj. apply in_map_iff in Hj as (k & <- & Hk).
  rewrite Forall_forall in Hi, Hpos'. specialize (Hi k Hk).
  specialize (Hpos' k Hk). lia.
Qed.

(** The elements at increasing indices form a subsequence. *)
Lemma pick_Subseq (data : list DataPoint) : forall indices,
  StronglySorted lt indices -> Subseq (pick data indices) data.
Proof.
  induction data as [|a data IH]; intros indices Hs.
  - replace (pick [] indices) with (@nil DataPoint); [constructor|].
    induction indices as [|i indices IHi]; [reflexivity|].
    unfold pick in *. cbn. destruct i; cbn; apply IHi; now inversion Hs.
  - destruct indices as [|i indices]; [apply Subseq_nil_l|].
    apply StronglySorted_inv in Hs as [Hs Hi].
    destruct i as [|i].
    + assert (Hpos : Forall (fun j => 0 < j) indices) by exact Hi.
      change (pick (a :: data) (0 :: indices))
        with (a :: pick (a :: data) indices).
      rewrite pick_shift by exact Hpos.
      constructor. apply IH. now apply pred_increasing.
    + assert (Hpos : Forall (fun j => 0 < j) (S i :: indices)).
      { constructor; [lia|]. eapply Forall_impl; [|exact Hi]. cbn. lia. }
      rewrite pick_shift by exact Hpos.
      constructor. apply IH. apply pred_increasing; [|exact Hpos].
      constructor; assumption.
Qed.

Lemma keptIndices_increasing len step :
  0 < step -> StronglySorted lt (keptIndices len step).
Proof.
  intros Hstep. unfold keptIndices. generalize (ceilDiv len step) as n.
  generalize 0 as a. intros a n. revert a.
  induction n as [|n IH]; intros a; [constructor|].
  cbn. constructor; [apply IH|].
  apply Forall_forall. intros j Hj. apply in_map_iff in Hj as (k & <- & Hk).
  apply in_seq in Hk. nia.
Qed.

Lemma increasing_snoc (indices : list nat) (m : nat) :
  StronglySorted lt indices -> Forall (fun i => i < m) indices ->
  StronglySorted lt (indices ++ [m]).
Proof.
  induction 1 as [|i indices Hs IH Hi]; intros Hm.
  - cbn. constructor; constructor.
  - inversion Hm; subst. cbn. constructor; [now apply IH|].
    apply Forall_app. split; [exact Hi|]. constructor; [assumption|constructor].
Qed.

Lemma pick_In (data : list DataPoint) indices d :
  In d (pick data indices) -> In d data.
Proof.
  unfold pick. intros H. apply in_flat_map in H as (i & _ & Hd).
  destruct (nth_error data i) eqn:Hn; [|now elim Hd].
  destruct Hd as [<-|[]]. eapply nth_error_In; eauto.
Qed.

(** The positive stride and the bound of the number of kept indices, for
    any target. *)
Lemma stride_bounds_for target len :
  0 < target -> 0 < len ->
  0 < ceilDiv len target /\ ceilDiv len (ceilDiv len target) <= target.
Proof.
  intros Ht Hlen.
  pose proof (ceilDiv_upper len target Ht) as Hup.
  assert (Hpos : 0 < ceilDiv len target) by nia.
  split; [exact Hpos|].
  set (step := ceilDiv len target) in *.
  unfold ceilDiv. apply Nat.lt_succ_r.
  apply Nat.Div0.div_lt_upper_bound. nia.
Qed.

(** The stride loop followed by the append of the last element, as both
    [decimateData] and [applyZoom] have it: the result is a subsequence
    that begins with the first element and ends with the last. *)
Lemma thinned_Subseq (data : list DataPoint) (step : nat) :
  0 < step -> data <> [] ->
  let kept := pick data (keptIndices (List.length data) step) in
  let out := if strictEquals sameObject (lastOf kept) (lastOf data)
             then kept else push kept (lastOf data) in
  Subseq out data /\ hd_error out = hd_error data /\ lastOf out = lastOf data /\
  List.length out <= ceilDiv (List.length data) step + 1.
Proof.
  intros Hstep Hne kept out.
  destruct (lastOf_some data Hne) as (lastRecord & Hlast & Hnth).
  assert (Hlen : 0 < List.length data) by (destruct data; [now elim Hne|cbn; lia]).
  assert (Hk : List.length kept = ceilDiv (List.length data) step)
    by (apply kept_length; exact Hstep).
  assert (Hhd : hd_error kept = hd_error data).
  { unfold kept, keptIndices.
    rewrite (ceilDiv_succ (List.length data) step) by lia.
    cbn [seq map]. unfold pick. cbn [flat_map].
    destruct data as [|d0 data']; [now elim Hne|]. reflexivity. }
  assert (Hsub : Subseq kept data)
    by (apply pick_Subseq, keptIndices_increasing; exact Hstep).
  unfold out. rewrite Hlast.
  destruct (strictEquals sameObject (lastOf kept) (Some lastRecord)) eqn:Heq.
  - apply strictEquals_true in Heq. repeat split; auto. lia.
  - cbn [push]. repeat split.
    + replace (kept ++ [lastRecord])
        with (pick data (keptIndices (List.length data) step ++ [List.length data - 1])).
      * apply pick_Subseq. apply increasing_snoc.
        -- now apply keptIndices_increasing.
        -- apply Forall_forall. intros i Hi.
           pose proof (keptIndices_in_range (List.length data) step Hstep) as Hr.
           rewrite Forall_forall in Hr. specialize (Hr i Hi).
           destruct (Nat.eq_dec i (List.length data - 1)) as [->|Hn]; [|lia].
           exfalso. unfold keptIndices in Hi.
           apply in_map_iff in Hi as (k & Hk' & _).
           assert (lastOf kept = Some lastRecord).
           { apply (kept_last_of_multiple data step k); [exact Hstep|lia|].
             rewrite Hk'. exact Hnth. }
           assert (strictEquals sameObject (lastOf kept) (Some lastRecord) = true)
             by now apply strictEquals_true.
           congruence.
      * rewrite pick_app. unfold pick at 2. cbn [flat_map]. rewrite Hnth.
        reflexivity.
    + destruct kept as [|k0 kept']; [|exact Hhd].
      cbn in Hk. pose proof (ceilDiv_succ (List.length data) step Hstep Hlen). lia.
    + apply lastOf_snoc.
    + rewrite length_app. cbn. lia.
Qed.

(** X17.  [decimateData] keeps the records in their order, starting with the
    first one: its result is a subsequence of the array. *)
Theorem decimateData_is_subsequence (data out : list DataPoint) :
  decimateData sameObject data = Some out ->
  Subseq out data /\ hd_error out = hd_error data /\
  (forall d, In d out -> In d data).
Proof.
  intros Hout.
  assert (Hsub : Subseq out data /\ hd_error out = hd_error data).
  { destruct (le_lt_dec (List.length data) 2000) as [Hsmall|Hbig].
    - rewrite decimateData_small in Hout by exact Hsmall.
      inversion Hout; subst. split; [apply Subseq_refl|reflexivity].
    - rewrite decimateData_large in Hout by exact Hbig.
      inversion Hout; subst out.
      destruct (stride_bounds (List.length data) ltac:(lia)) as [Hstep _].
      assert (Hne : data <> []) by (intros ->; cbn in Hbig; lia).
      destruct (thinned_Subseq data _ Hstep Hne) as (H1 & H2 & _).
      split; assumption. }
  destruct Hsub as [Hsub Hhd]. repeat split; auto.
  now apply Subseq_In.
Qed.

Section Zoom.

Variable datetime : DataPoint -> Z.

(** X18.  The data [applyZoom] draws: always defined, a subsequence of the
    records made of records inside the time range only, the visible
    records themselves when they are at most 1000 and at most 1001 of
    them otherwise, ending with the last visible record. *)
Theorem finalData_within_range (data : list DataPoint) (timeRange : TimeRange) :
  exists out,
    finalData sameObject datetime data timeRange = Some out /\
    Subseq out data /\
    (forall d, In d out -> inRange (datetime d) timeRange) /\
    List.length out <= 1001 /\
    lastOf out = lastOf (visibleData datetime data timeRange) /\
    (List.length (visibleData datetime data timeRange) <= 1000 ->
     out = visibleData datetime data timeRange).
Proof.
  unfold finalData.
  set (visible := visibleData datetime data timeRange).
  assert (Hvis : forall d, In d visible -> inRange (datetime d) timeRange).
  { intros d Hd. unfold visible, visibleData in Hd.
    apply filter_In in Hd as [_ Hd]. apply andb_prop in Hd as [H1 H2].
    apply Z.leb_le in H1, H2. split; assumption. }
  assert (Hsubv : Subseq visible data) by apply Subseq_filter.
  cbv zeta.
  destruct (1000 <? List.length visible) eqn:Hbig.
  - apply Nat.ltb_lt in Hbig.
    destruct (stride_bounds_for 1000 (List.length visible) ltac:(lia) ltac:(lia))
      as [Hstep Hbound].
    rewrite keepLoop_all by exact Hstep.
    assert (Hne : visible <> []) by (intros E; rewrite E in Hbig; cbn in Hbig; lia).
    destruct (thinned_Subseq visible _ Hstep Hne) as (Hsub & _ & Hlast & Hlen).
    cbv zeta in Hsub, Hlast, Hlen.
    set (kept := pick visible (keptIndices (List.length visible)
                   (ceilDiv (List.length visible) 1000))) in *.
    exists (if strictEquals sameObject (lastOf kept) (lastOf visible)
            then kept else push kept (lastOf visible)).
    split; [destruct (strictEquals sameObject (lastOf kept) (lastOf visible));
            reflexivity|].
    split; [eapply Subseq_trans; eauto|].
    split; [intros d Hd; apply Hvis; eapply Subseq_In; eauto|].
    split; [lia|]. split; [exact Hlast|]. intros Hsmall. lia.
  - apply Nat.ltb_ge in Hbig. exists visible.
    split; [reflexivity|]. split; [exact Hsubv|]. split; [exact Hvis|].
    split; [lia|]. split; reflexivity.
Qed.

End Zoom.

End ThinningFacts.

Lemma finalData_within_range_witness :
  let data := [5; 10; 15; 20; 25]%Z in
  let timeRange := DataModel.mkTimeRange 10 20 in
  exists out,
    ChartComponent.finalData Z.eq_dec (fun t : Z => t) data timeRange = Some out /\
    out = ChartComponent.visibleData (fun t : Z => t) data timeRange.
Proof.
  destruct (finalData_within_range Z.eq_dec (fun t : Z => t)
              [5; 10; 15; 20; 25]%Z (DataModel.mkTimeRange 10 20))
    as (out & Hout & _ & _ & _ & _ & Hsmall).
  exists out. split; [exact Hout|]. apply Hsmall. vm_compute. lia.
Defined.

Lemma decimateData_is_subsequence_witness :
  let data := seq 0 2001 in
  let out := map (fun k => 2 * k) (seq 0 1001) in
  Spec.Subseq out data /\ hd_error out = hd_error data /\
  (forall d, In d out -> In d data).
Proof.
  apply (decimateData_is_subsequence Nat.eq_dec (seq 0 2001)
           (map (fun k => 2 * k) (seq 0 1001))).
  vm_compute. reflexivity.
Defined.

(** ** Runs, record by record *)

Section RunFacts.
Import DataModel StateChartComponent Spec.

Context {DataPoint Any : Type}.
Variable datetime : DataPoint -> Z.
Variable fieldOf : DataPoint -> Any.
Variable isNullish : Any -> bool.
Variable toString : Any -> string.

Lemma inItsRun_more segs gaps segs' gaps' d :
  inItsRun datetime fieldOf isNullish toString (segs, gaps) d ->
  inItsRun datetime fieldOf isNullish toString (segs ++ segs', gaps ++ gaps') d.
Proof.
  unfold inItsRun. cbn [fst snd].
  destruct (isNullish (fieldOf d)).
  - intros (g & Hg & Ht). exists g. split; [apply in_or_app; now left|exact Ht].
  - intros (s & Hs & Ht). exists s. split; [apply in_or_app; now left|exact Ht].
Qed.

(** Closing the current run at [endTime] settles every record placed so
    far that is not later than [endTime]. *)
Lemma endCurrent_settles colors (r : Runs) (endTime : Z) d :
  placed datetime fieldOf isNullish toString r d ->
  (datetime d <= endTime)%Z ->
  inItsRun datetime fieldOf isNullish toString
           (endCurrent toString colors r endTime) d.
Proof.
  intros [Hclosed|(Hnull & Hstr & Hstart)] Hle; unfold endCurrent.
  - destruct (isCurrentNull r).
    + rewrite <- (app_nil_r (segments r)). now apply inItsRun_more.
    + rewrite <- (app_nil_r (nullGaps r)). now apply inItsRun_more.
  - unfold inItsRun. rewrite <- Hnull.
    destruct (isCurrentNull r); cbn [fst snd].
    + eexists. split; [apply in_or_app; right; now left|]. cbn. lia.
    + eexists. split; [apply in_or_app; right; now left|]. cbn.
      split; [now apply Hstr|lia].
Qed.

(** One step of the walk keeps the earlier records placed and places the
    record visited. *)
Lemma visit_places colors (r : Runs) (d : DataPoint) :
  (segmentStart r <= datetime d)%Z ->
  let r' := visit datetime fieldOf isNullish toString colors r d in
  (forall p, placed datetime fieldOf isNullish toString r p ->
             (datetime p <= datetime d)%Z ->
             placed datetime fieldOf isNullish toString r' p) /\
  placed datetime fieldOf isNullish toString r' d /\
  (segmentStart r' = segmentStart r \/ segmentStart r' = datetime d).
Proof.
  intros Hstart. cbv zeta. unfold visit.
  destruct (negb (Bool.eqb (isNullish (fieldOf d)) (isCurrentNull r)) ||
            negb (isNullish (fieldOf d)) &&
            negb (String.eqb (toString (fieldOf d)) (toString (currentState r))))
    eqn:Hbreak.
  - pose proof (endCurrent_settles colors r (datetime d)) as Hsettle.
    destruct (endCurrent toString colors r (datetime d)) as [segs gaps].
    split; [|split].
    + intros p Hp Hle. left. cbn [segments nullGaps]. now apply Hsettle.
    + right. cbn. repeat split; auto. lia.
    + right. reflexivity.
  - apply orb_false_iff in Hbreak as [Hflip Hdiff].
    apply negb_false_iff, Bool.eqb_prop in Hflip.
    split; [|split].
    + intros p Hp _. exact Hp.
    + right. split; [now symmetry|]. split; [|exact Hstart].
      intros Hnn. rewrite Hnn in Hdiff. cbn in Hdiff.
      apply negb_false_iff, String.eqb_eq in Hdiff. now symmetry.
    + left. reflexivity.
Qed.

Lemma fold_places colors (rest : list DataPoint) :
  forall (r : Runs) (processed : list DataPoint),
  StronglySorted Z.le (map datetime rest) ->
  Forall (fun d => (segmentStart r <= datetime d)%Z) rest ->
  (forall p d, In p processed -> In d rest -> (datetime p <= datetime d)%Z) ->
  Forall (placed datetime fieldOf isNullish toString r) processed ->
  let r' := fold_left (visit datetime fieldOf isNullish toString colors) rest r in
  Forall (placed datetime fieldOf isNullish toString r') (processed ++ rest) /\
  (segmentStart r' = segmentStart r \/ In (segmentStart r') (map datetime rest)).
Proof.
  induction rest as [|d rest IH]; intros r processed Hs Hstart Hord Hplaced.
  - cbn. rewrite app_nil_r. split; [exact Hplaced|now left].
  - cbn [fold_left map] in *.
    apply StronglySorted_inv in Hs as [Hs Hd].
    inversion Hstart as [|? ? Hsd Hstart']; subst.
    destruct (visit_places colors r d Hsd) as (Hold & Hnew & Hseg).
    cbv zeta in Hold, Hnew, Hseg.
    set (r1 := visit datetime fieldOf isNullish toString colors r d) in *.
    destruct (IH r1 (processed ++ [d])) as [Hall Hseg'].
    + exact Hs.
    + apply Forall_forall. intros e He.
      destruct Hseg as [->| ->].
      * rewrite Forall_forall in Hstart'. now apply Hstart'.
      * rewrite Forall_forall in Hd. apply Hd. now apply in_map.
    + intros p e Hp He. apply in_app_or in Hp as [Hp|[<-|[]]].
      * apply Hord; [exact Hp|now right].
      * rewrite Forall_forall in Hd. apply Hd. now apply in_map.
    + apply Forall_app. split; [|constructor; [exact Hnew|constructor]].
      apply Forall_forall. intros p Hp. apply Hold.
      * rewrite Forall_forall in Hplaced. now apply Hplaced.
      * apply Hord; [exact Hp|now left].
    + cbv zeta in Hall, Hseg'. rewrite <- app_assoc in Hall. cbn in Hall.
      split; [exact Hall|].
      destruct Hseg' as [E|Hin]; [|right; now right].
      rewrite E. destruct Hseg as [->| ->]; [now left|right; now left].
Qed.

(** Every record lies in a run of its own value (helper for the two
    statements below). *)
Lemma records_in_their_runs (first : DataPoint) (rest : list DataPoint) :
  Sorted Z.le (map datetime (first :: rest)) ->
  exists sg,
    createStateSegments datetime fieldOf isNullish toString (first :: rest) = Some sg /\
    forall d, In d (first :: rest) ->
              inItsRun datetime fieldOf isNullish toString sg d.
Proof.
  intros Hsorted.
  assert (Hss : StronglySorted Z.le (datetime first :: map datetime rest))
    by (apply Sorted_StronglySorted; [intros a b c; apply Z.le_trans|exact Hsorted]).
  pose proof (ascending_le_last (map datetime rest) (datetime first) Hss)
    as Hlast.
  rewrite <- (last_map_datetime datetime) in Hlast.
  apply StronglySorted_inv in Hss as [Hss Hfirst].
  unfold createStateSegments. rewrite nth_error_last.
  eexists. split; [reflexivity|].
  set (colors := stateColorMap fieldOf toString (first :: rest)).
  set (r0 := mkRuns [] [] (fieldOf first) (datetime first) (isNullish (fieldOf first))).
  destruct (fold_places colors rest r0 [first]) as [Hall Hseg].
  - exact Hss.
  - apply Forall_forall. intros d Hd. rewrite Forall_forall in Hfirst.
    apply Hfirst. now apply in_map.
  - intros p d [<-|[]] Hd. rewrite Forall_forall in Hfirst.
    apply Hfirst. now apply in_map.
  - constructor; [|constructor]. right. cbn. repeat split; auto. lia.
  - cbv zeta in Hall, Hseg. cbn [app] in Hall.
    intros d Hd. rewrite Forall_forall in Hall, Hlast.
    apply endCurrent_settles; [now apply Hall|].
    apply Hlast. change (In (datetime d) (map datetime (first :: rest))).
    now apply in_map.
Qed.

(** X19.  On records in ascending time order the value of every record can be
    read off the segments and gaps: a record with a missing value lies in
    a gap, any other record lies in a segment that carries its value. *)
Theorem every_record_in_its_run (first : DataPoint) (rest : list DataPoint) :
  Sorted Z.le (map datetime (first :: rest)) ->
  exists sg,
    createStateSegments datetime fieldOf isNullish toString (first :: rest) = Some sg /\
    forall d, In d (first :: rest) ->
              inItsRun datetime fieldOf isNullish toString sg d.
Proof. apply records_in_their_runs. Qed.

(** *** Where runs start, and their colours *)

Lemma indexOf_found s l : forall k, In s l -> exists i, indexOf s l k = Some i.
Proof.
  induction l as [|a l IH]; intros k Hin; [destruct Hin|].
  cbn [indexOf]. destruct (String.eqb s a) eqn:E; [eauto|].
  destruct Hin as [->|Hin]; [now rewrite String.eqb_refl in E|now apply IH].
Qed.

Lemma indexOf_nth s l : forall k i,
  indexOf s l k = Some i -> k <= i /\ nth_error l (i - k) = Some s.
Proof.
  induction l as [|a l IH]; intros k i H; [discriminate|].
  cbn [indexOf] in H. destruct (String.eqb_spec s a) as [->|Hne].
  - inversion H; subst. rewrite Nat.sub_diag. split; [lia|reflexivity].
  - apply IH in H as [Hle Hn]. split; [lia|].
    replace (i - k) with (S (i - S k)) by lia. exact Hn.
Qed.

Lemma distinct_keeps s l : forall seen,
  In s l -> existsb (String.eqb s) seen = false -> In s (distinct seen l).
Proof.
  induction l as [|a l IH]; intros seen Hin Hseen; [destruct Hin|].
  cbn [distinct]. destruct (String.eqb_spec s a) as [->|Hne].
  - rewrite Hseen. now left.
  - destruct Hin as [->|Hin]; [congruence|].
    destruct (existsb (String.eqb a) seen); [now apply IH|].
    right. apply IH; [exact Hin|]. cbn [existsb]. rewrite Hseen.
    apply String.eqb_neq in Hne. now rewrite Hne.
Qed.

Lemma uniqueStates_has (data : list DataPoint) d :
  In d data -> In (toString (fieldOf d)) (uniqueStates fieldOf toString data).
Proof.
  intros Hd. unfold uniqueStates. apply distinct_keeps; [|reflexivity].
  now apply (in_map (fun d => toString (fieldOf d))).
Qed.


Lemma visit_sources colors (data : list DataPoint) (r : Runs) (d : DataPoint) :
  In d data ->
  Forall (segmentFrom datetime fieldOf isNullish toString data colors) (segments r) ->
  Forall (gapFrom datetime fieldOf isNullish data) (nullGaps r) ->
  (exists p, In p data /\ currentState r = fieldOf p /\ segmentStart r = datetime p) ->
  isCurrentNull r = isNullish (currentState r) ->
  let r' := visit datetime fieldOf isNullish toString colors r d in
  Forall (segmentFrom datetime fieldOf isNullish toString data colors) (segments r') /\
  Forall (gapFrom datetime fieldOf isNullish data) (nullGaps r') /\
  (exists p, In p data /\ currentState r' = fieldOf p /\ segmentStart r' = datetime p) /\
  isCurrentNull r' = isNullish (currentState r').
Proof.
  intros Hd Hsegs Hgaps (p & Hp & Hcur & Hstart) Hnull. cbv zeta. unfold visit.
  destruct (negb (Bool.eqb (isNullish (fieldOf d)) (isCurrentNull r)) ||
            negb (isNullish (fieldOf d)) &&
            negb (String.eqb (toString (fieldOf d)) (toString (currentState r))));
    [|repeat split; eauto].
  unfold endCurrent. destruct (isCurrentNull r) eqn:Hc; cbn.
  - repeat split; eauto. apply Forall_app. split; [exact Hgaps|].
    constructor; [|constructor]. exists p. cbn. rewrite <- Hcur, <- Hnull. auto.
  - repeat split; eauto. apply Forall_app. split; [exact Hsegs|].
    constructor; [|constructor]. exists p. cbn. rewrite <- Hcur, <- Hnull. auto.
Qed.

Lemma fold_sources colors (data rest : list DataPoint) : forall (r : Runs),
  (forall d, In d rest -> In d data) ->
  Forall (segmentFrom datetime fieldOf isNullish toString data colors) (segments r) ->
  Forall (gapFrom datetime fieldOf isNullish data) (nullGaps r) ->
  (exists p, In p data /\ currentState r = fieldOf p /\ segmentStart r = datetime p) ->
  isCurrentNull r = isNullish (currentState r) ->
  let r' := fold_left (visit datetime fieldOf isNullish toString colors) rest r in
  Forall (segmentFrom datetime fieldOf isNullish toString data colors) (segments r') /\
  Forall (gapFrom datetime fieldOf isNullish data) (nullGaps r') /\
  (exists p, In p data /\ currentState r' = fieldOf p /\ segmentStart r' = datetime p) /\
  isCurrentNull r' = isNullish (currentState r').
Proof.
  induction rest as [|d rest IH]; intros r Hsub Hsegs Hgaps Hcur Hnull.
  - cbn. auto.
  - cbn [fold_left].
    destruct (visit_sources colors data r d (Hsub d (or_introl eq_refl))
                Hsegs Hgaps Hcur Hnull) as (H1 & H2 & H3 & H4).
    apply IH; auto. intros e He. apply Hsub. now right.
Qed.

(** Every segment and every gap starts at a record of its kind (helper
    for the statements on segments and on gaps). *)
Lemma runs_start_at_records (data : list DataPoint) sg :
  createStateSegments datetime fieldOf isNullish toString data = Some sg ->
  Forall (segmentFrom datetime fieldOf isNullish toString data
            (stateColorMap fieldOf toString data)) (fst sg) /\
  Forall (gapFrom datetime fieldOf isNullish data) (snd sg).
Proof.
  destruct data as [|first rest]; [discriminate|].
  unfold createStateSegments. rewrite nth_error_last. intros H. inversion H; subst sg.
  clear H.
  set (data := first :: rest). set (colors := stateColorMap fieldOf toString data).
  destruct (fold_sources colors data rest
              (mkRuns [] [] (fieldOf first) (datetime first) (isNullish (fieldOf first))))
    as (Hsegs & Hgaps & (p & Hp & Hcur & Hstart) & Hnull); cbn [segments nullGaps
      currentState segmentStart isCurrentNull]; auto.
  - intros d Hd. now right.
  - exists first. split; [now left|auto].
  - cbv zeta in Hsegs, Hgaps, Hcur, Hstart, Hnull. unfold endCurrent.
    match goal with |- context [isCurrentNull ?r] => set (r' := r) in * end.
    destruct (isCurrentNull r') eqn:Hc; cbn [fst snd]; split; auto.
    + apply Forall_app. split; [exact Hgaps|]. constructor; [|constructor].
      exists p. cbn. rewrite <- Hcur, <- Hnull. auto.
    + apply Forall_app. split; [exact Hsegs|]. constructor; [|constructor].
      exists p. cbn. rewrite <- Hcur, <- Hnull. auto.
Qed.


Lemma STATE_COLORS_NoDup : NoDup STATE_COLORS.
Proof.
  unfold STATE_COLORS.
  repeat (constructor;
          [intros H; cbn in H;
           repeat (destruct H as [H|H]; [discriminate H|]); exact H|]).
  constructor.
Qed.

(** X21.  While a field takes at most ten distinct values, records with
    different values are drawn in different colours. *)
Theorem stateColorMap_distinguishes_states (data : list DataPoint) d1 d2 :
  List.length (uniqueStates fieldOf toString data) <= List.length STATE_COLORS ->
  In d1 data -> In d2 data ->
  toString (fieldOf d1) <> toString (fieldOf d2) ->
  stateColorMap fieldOf toString data (toString (fieldOf d1)) <>
  stateColorMap fieldOf toString data (toString (fieldOf d2)).
Proof.
  intros Hlen H1 H2 Hne. unfold stateColorMap.
  destruct (indexOf_found _ _ 0 (uniqueStates_has data d1 H1)) as [i1 E1].
  destruct (indexOf_found _ _ 0 (uniqueStates_has data d2 H2)) as [i2 E2].
  rewrite E1, E2.
  apply indexOf_nth in E1 as [_ N1]. apply indexOf_nth in E2 as [_ N2].
  rewrite Nat.sub_0_r in N1, N2.
  assert (L1 : i1 < List.length (uniqueStates fieldOf toString data))
    by (apply nth_error_Some; congruence).
  assert (L2 : i2 < List.length (uniqueStates fieldOf toString data))
    by (apply nth_error_Some; congruence).
  rewrite !Nat.mod_small by lia.
  intros Heq.
  assert (i1 = i2).
  { apply (proj1 (NoDup_nth_error STATE_COLORS) STATE_COLORS_NoDup); [lia|exact Heq]. }
  subst i2. congruence.
Qed.

(** *** A field that never changes *)

Lemma fold_no_break colors (rest : list DataPoint) (r : Runs) :
  (forall d, In d rest ->
     isNullish (fieldOf d) = isCurrentNull r /\
     (isNullish (fieldOf d) = false ->
      toString (fieldOf d) = toString (currentState r))) ->
  fold_left (visit datetime fieldOf isNullish toString colors) rest r = r.
Proof.
  induction rest as [|d rest IH]; intros Hsame; [reflexivity|].
  cbn [fold_left].
  assert (E : visit datetime fieldOf isNullish toString colors r d = r).
  { destruct (Hsame d (or_introl eq_refl)) as [Hn Hs]. unfold visit.
    rewrite Hn, Bool.eqb_reflx. cbn [negb orb].
    destruct (isCurrentNull r); [reflexivity|].
    rewrite (Hs Hn), String.eqb_refl. reflexivity. }
  rewrite E. apply IH. intros e He. apply Hsame. now right.
Qed.

(** X22.  When no record differs from the first one (all values missing, or
    all present with the same text), the whole extent is one run: a
    single gap, or a single segment labelled with that value, from the
    first timestamp to the last. *)
Theorem uniform_field_is_one_run (first : DataPoint) (rest : list DataPoint) :
  (forall d, In d rest ->
     isNullish (fieldOf d) = isNullish (fieldOf first) /\
     (isNullish (fieldOf d) = false ->
      toString (fieldOf d) = toString (fieldOf first))) ->
  let data := first :: rest in
  let lastTime := datetime (last rest first) in
  createStateSegments datetime fieldOf isNullish toString data =
  Some (if isNullish (fieldOf first)
        then ([], [mkGap (datetime first) lastTime])
        else ([mkSegment (toString (fieldOf first)) (datetime first) lastTime
                 (stateColorMap fieldOf toString data (toString (fieldOf first)))],
              [])).
Proof.
  intros Hsame data lastTime. unfold data, createStateSegments.
  rewrite nth_error_last. rewrite fold_no_break; [|exact Hsame].
  unfold endCurrent. cbn [isCurrentNull segments nullGaps currentState segmentStart].
  destruct (isNullish (fieldOf first)); reflexivity.
Qed.

End RunFacts.

Lemma every_record_in_its_run_witness :
  let first := (0%Z, Some "A") in
  let rest := [(10%Z, Some "A"); (20%Z, @None string); (30%Z, Some "B")] in
  exists sg,
    StateChartComponent.createStateSegments
      fst snd Spec.textNullish Spec.textString (first :: rest) = Some sg /\
    forall d, In d (first :: rest) ->
              Spec.inItsRun fst snd Spec.textNullish Spec.textString sg d.
Proof.
  apply (every_record_in_its_run fst snd Spec.textNullish Spec.textString
           (0%Z, Some "A")
           [(10%Z, Some "A"); (20%Z, @None string); (30%Z, Some "B")]).
  simpl. repeat constructor; lia.
Defined.


Lemma stateColorMap_distinguishes_states_witness :
  let data := [(0%Z, Some "A"); (10%Z, Some "B"); (20%Z, Some "A")] in
  List.length (StateChartComponent.uniqueStates snd Spec.textString data) <= 10 /\
  StateChartComponent.stateColorMap snd Spec.textString data "A" <>
  StateChartComponent.stateColorMap snd Spec.textString data "B".
Proof.
  split; [vm_compute; lia|].
  apply (stateColorMap_distinguishes_states snd Spec.textString
           [(0%Z, Some "A"); (10%Z, Some "B"); (20%Z, Some "A")]
           (0%Z, Some "A") (10%Z, Some "B")).
  - vm_compute. lia.
  - now left.
  - right. now left.
  - vm_compute. discriminate.
Defined.

Lemma uniform_field_is_one_run_witness :
  let first := (0%Z, Some "A") in
  let rest := [(10%Z, Some "A"); (20%Z, Some "A")] in
  StateChartComponent.createStateSegments
    fst snd Spec.textNullish Spec.textString (first :: rest) =
  Some ([StateChartComponent.mkSegment "A" 0 20 (Some "#4CAF50")], []).
Proof.
  apply (uniform_field_is_one_run fst snd Spec.textNullish Spec.textString
           (0%Z, Some "A") [(10%Z, Some "A"); (20%Z, Some "A")]).
  intros d [<-|[<-|[]]]; split; reflexivity.
Defined.

(** ** The null gaps of the line chart *)

Section GapFacts.
Import DataModel ChartComponent StateChartComponent Spec.

Context {DataPoint Any : Type}.
Variable datetime : DataPoint -> Z.
Variable fieldOf : DataPoint -> Any.
Variable isNull : Any -> bool.

Section AgainstStateChart.

Variable isNullish : Any -> bool.
Variable toString : Any -> string.

(** One step of the two walks, side by side: the line chart's pair of
    [gaps] and [gapStart] follows the state chart's [nullGaps] and
    current run. *)
Lemma gapStep_follows_visit colors (st : list TimeRange * option Z) (r : Runs) d :
  isNull (fieldOf d) = isNullish (fieldOf d) ->
  fst st = map gapRange (nullGaps r) ->
  snd st = (if isCurrentNull r then Some (segmentStart r) else None) ->
  let st' := gapStep datetime fieldOf isNull st d in
  let r' := visit datetime fieldOf isNullish toString colors r d in
  fst st' = map gapRange (nullGaps r') /\
  snd st' = (if isCurrentNull r' then Some (segmentStart r') else None).
Proof.
  destruct st as [gaps gapStart]. cbn [fst snd]. intros Hsame -> ->. cbv zeta.
  unfold gapStep, visit, endCurrent. rewrite Hsame.
  destruct (isCurrentNull r) eqn:Hc, (isNullish (fieldOf d));
    cbn -[map]; rewrite ?Hc; auto.
  - rewrite map_app. auto.
  - destruct (String.eqb (toString (fieldOf d)) (toString (currentState r)));
      cbn -[map]; rewrite ?Hc; auto.
Qed.

Lemma fold_gapStep_follows colors (rest : list DataPoint) :
  forall (st : list TimeRange * option Z) (r : Runs),
  (forall d, In d rest -> isNull (fieldOf d) = isNullish (fieldOf d)) ->
  fst st = map gapRange (nullGaps r) ->
  snd st = (if isCurrentNull r then Some (segmentStart r) else None) ->
  let st' := fold_left (gapStep datetime fieldOf isNull) rest st in
  let r' := fold_left (visit datetime fieldOf isNullish toString colors) rest r in
  fst st' = map gapRange (nullGaps r') /\
  snd st' = (if isCurrentNull r' then Some (segmentStart r') else None).
Proof.
  induction rest as [|d rest IH]; intros st r Hsame Hg Hs; [cbn; auto|].
  cbn [fold_left].
  destruct (gapStep_follows_visit colors st r d (Hsame d (or_introl eq_refl)) Hg Hs)
    as [Hg' Hs'].
  apply IH; auto. intros e He. apply Hsame. now right.
Qed.

(** The gaps of the line chart are the gaps of the state chart (helper
    for the statements below). *)
Lemma findNullGaps_as_state_gaps (first : DataPoint) (rest : list DataPoint) :
  (forall d, In d (first :: rest) -> isNull (fieldOf d) = isNullish (fieldOf d)) ->
  exists sg,
    createStateSegments datetime fieldOf isNullish toString (first :: rest) = Some sg /\
    findNullGaps datetime fieldOf isNull (first :: rest) = map gapRange (snd sg).
Proof.
  intros Hsame. unfold createStateSegments, findNullGaps.
  rewrite nth_error_last. eexists. split; [reflexivity|].
  set (colors := stateColorMap fieldOf toString (first :: rest)).
  set (r0 := mkRuns [] [] (fieldOf first) (datetime first) (isNullish (fieldOf first))).
  cbn [fold_left].
  destruct (fold_gapStep_follows colors rest
              (gapStep datetime fieldOf isNull ([], None) first) r0) as [Hg Hs].
  - intros d Hd. apply Hsame. now right.
  - cbn. now destruct (isNull (fieldOf first)).
  - cbn. rewrite (Hsame first (or_introl eq_refl)).
    now destruct (isNullish (fieldOf first)).
  - cbv zeta in Hg, Hs.
    destruct (fold_left (gapStep datetime fieldOf isNull) rest
                (gapStep datetime fieldOf isNull ([], None) first)) as [gaps gapStart].
    cbn [fst snd] in Hg, Hs. subst gaps gapStart.
    change (0 <? List.length (first :: rest)) with true. cbv iota.
    unfold endCurrent.
    destruct (isCurrentNull
                (fold_left (visit datetime fieldOf isNullish toString colors) rest r0));
      cbn [fst snd]; [|reflexivity].
    rewrite map_app. reflexivity.
Qed.

(** X23.  On a field where the two charts agree on which values are missing
    (a numeric field as the parser fills it: numbers that are not NaN, or
    null), the line chart marks exactly the gaps the state chart would
    draw, in the same order. *)
Theorem findNullGaps_agrees_with_state_chart (first : DataPoint)
    (rest : list DataPoint) :
  (forall d, In d (first :: rest) -> isNull (fieldOf d) = isNullish (fieldOf d)) ->
  exists sg,
    createStateSegments datetime fieldOf isNullish toString (first :: rest) = Some sg /\
    findNullGaps datetime fieldOf isNull (first :: rest) = map gapRange (snd sg).
Proof. apply findNullGaps_as_state_gaps. Qed.

End AgainstStateChart.

(** X24.  The gaps of the line chart do not miss a missing value and do not
    come from nowhere: every gap starts at the timestamp of a record
    whose value is missing (so a field without missing values has no
    gap), and on records in ascending time order every record whose value
    is missing lies in a gap. *)
Theorem findNullGaps_marks_missing_values (data : list DataPoint) :
  (forall g, In g (findNullGaps datetime fieldOf isNull data) ->
     exists d, In d data /\ isNull (fieldOf d) = true /\
               range_start g = datetime d) /\
  (Sorted Z.le (map datetime data) ->
   forall d, In d data -> isNull (fieldOf d) = true ->
     exists g, In g (findNullGaps datetime fieldOf isNull data) /\
               (range_start g <= datetime d <= range_end g)%Z).
Proof.
  destruct data as [|first rest].
  { split; [intros g []|intros _ d []]. }
  destruct (findNullGaps_as_state_gaps isNull (fun _ => EmptyString) first rest)
    as (sg & Hsg & Hgaps); [reflexivity|].
  rewrite Hgaps. split.
  - intros g Hg. apply in_map_iff in Hg as (g0 & <- & Hg0).
    destruct (runs_start_at_records datetime fieldOf isNull (fun _ => EmptyString)
                (first :: rest) sg Hsg) as [_ Hfrom].
    rewrite Forall_forall in Hfrom. exact (Hfrom g0 Hg0).
  - intros Hsorted d Hd Hnull.
    destruct (records_in_their_runs datetime fieldOf isNull (fun _ => EmptyString)
                first rest Hsorted) as (sg' & Hsg' & Hin).
    rewrite Hsg in Hsg'. inversion Hsg'; subst sg'.
    specialize (Hin d Hd). unfold inItsRun in Hin. rewrite Hnull in Hin.
    destruct Hin as (g0 & Hg0 & Ht).
    exists (gapRange g0). split; [now apply in_map|exact Ht].
Qed.

End GapFacts.

Lemma findNullGaps_agrees_with_state_chart_witness :
  let first := (0%Z, Some "1") in
  let rest := [(10%Z, @None string); (20%Z, @None string); (30%Z, Some "4")] in
  exists sg,
    StateChartComponent.createStateSegments
      fst snd Spec.textNullish Spec.textString (first :: rest) = Some sg /\
    ChartComponent.findNullGaps fst snd Spec.textNullish (first :: rest) =
    map Spec.gapRange (snd sg).
Proof.
  apply (findNullGaps_agrees_with_state_chart fst snd Spec.textNullish
           Spec.textNullish Spec.textString
           (0%Z, Some "1")
           [(10%Z, @None string); (20%Z, @None string); (30%Z, Some "4")]).
  intros d _. reflexivity.
Defined.

Lemma findNullGaps_marks_missing_values_witness :
  let data := [(0%Z, Some "1"); (10%Z, @None string); (20%Z, Some "4")] in
  exists g, In g (ChartComponent.findNullGaps fst snd Spec.textNullish data) /\
            (DataModel.range_start g <= 10 <= DataModel.range_end g)%Z.
Proof.
  apply (proj2 (findNullGaps_marks_missing_values fst snd Spec.textNullish
                  [(0%Z, Some "1"); (10%Z, @None string); (20%Z, Some "4")])
               ltac:(simpl; repeat constructor; lia)
               (10%Z, @None string)).
  - right. now left.
  - reflexivity.
Defined.

(** ** Uploading a file *)

Section UploadFacts.
Import DataModel CsvService Spec.

(** X25.  Whatever text is read from the file, the promise of [parseFile]
    resolves: it is never rejected.  It resolves with one record per data
    line, [getCurrentData] returns these records afterwards, and the
    three subjects hold the result of this upload only, whatever they
    held before. *)
Theorem parseFile_resolves_and_replaces (csvText : string) (s : Service) :
  exists r,
    parseCsv csvText = Return r /\
    snd (parseFile csvText s) = Resolved (data r) /\
    getCurrentData (fst (parseFile csvText s)) = data r /\
    List.length (data r) = List.length (dataLinesOf csvText) /\
    fst (parseFile csvText s) = fst (parseFile csvText newService).
Proof.
  destruct (parseCsv_returns csvText) as [r Hr].
  exists r. unfold parseFile. rewrite Hr. cbn [fst snd getCurrentData dataSubject].
  repeat split; try reflexivity.
  unfold parseCsv in Hr. unfold dataLinesOf.
  destruct (nth_error (JS.split "010"%char (JS.trim csvText)) 0); [|discriminate].
  inversion Hr; subst r. cbn [data]. apply length_map.
Qed.

End UploadFacts.
